(** * Video splitter: the segmentation worker of [main_windows.py]

    A shallow embedding of [WorkerThread.run] and
    [WorkerThread.calculate_target_resolution], with the properties of the
    segment plan, the geometry plan, the mode escalation, the per-mode
    failure policy, the progress percentage and the built ffmpeg commands.

    Numbers.  Python [int]s are [Z].  A finite Python [float] is the rational
    it denotes ([Q]); the two float computations whose rounding is visible in
    an [int(...)] result, [int(h * 9 / 16)] and [int((i + 1) / n * 100)], go
    through [Float64.RN], IEEE-754 binary64 round-to-nearest-even.  The
    planning arithmetic ([total // seg], [total - start], the comparisons) is
    exact in binary64 as long as the start times stay below 2^53, which is
    the range this development describes. *)

From Stdlib Require Import ZArith QArith Qround Qpower Qabs Lqa Lia.
From Stdlib Require Import List String Ascii Bool DecimalString DecimalPos.
From Stdlib Require Import Floats.SpecFloat.
Import ListNotations.

Open Scope Z_scope.

(* ================================================================== *)
(** ** Binary64 rounding *)

Module Float64.

Definition prec : Z := 53.
Definition emax : Z := 1024.
Definition emin : Z := -1074.

Definition pow2 (e : Z) : Q := (2 ^ e)%Q.

(** For [0 < q], the exponent [e] with [2^(e-1) <= q < 2^e]. *)
Definition mag (q : Q) : Z :=
  let a := Qabs q in
  let l := Z.log2 (Qnum a) - Z.log2 (Zpos (Qden a)) in
  if Qle_bool (pow2 l) a then l + 1 else l.

(** Exponent of the unit in the last place, subnormals included. *)
Definition cexp (q : Q) : Z := Z.max (mag q - prec) emin.

(** Nearest integer, ties to even. *)
Definition rne (x : Q) : Z :=
  let f := Qfloor x in
  match (x - inject_Z f ?= 1 # 2)%Q with
  | Lt => f
  | Gt => f + 1
  | Eq => if Z.even f then f else f + 1
  end.

(** Round to nearest, ties to even, on the binary64 grid, subnormals
    included; the callers test the result for overflow. *)
Definition RN (q : Q) : Q :=
  if Qeq_bool q 0 then 0%Q
  else let e := cexp q in (inject_Z (rne (q * pow2 (- e))) * pow2 e)%Q.

(** The rational denoted by a finite [spec_float]. *)
Definition SF2Q (f : spec_float) : option Q :=
  match f with
  | S754_zero _ => Some 0%Q
  | S754_finite s m e =>
      Some ((if s then -1 else 1) * inject_Z (Zpos m) * pow2 e)%Q
  | _ => None
  end.

Definition SF_of_Z (z : Z) : spec_float := binary_normalize prec emax z 0 false.

End Float64.

Import Float64.

(* ================================================================== *)
(** ** The Python operations the worker uses *)

Module Py.

(** A number as Python holds it: [start_time] and [segment_duration] are
    [int]s, [remaining_time] is a [float]. *)
Inductive number := Int (z : Z) | Float (q : Q).

Definition value (x : number) : Q :=
  match x with Int z => inject_Z z | Float q => q end.

(** A Python [float]. *)
Inductive float_value := Finite (q : Q) | Infinite | NaN.

Inductive exn := ValueError | ZeroDivisionError | OverflowError | OSError (msg : string).

Definition Qlt_bool (x y : Q) : bool := negb (Qle_bool y x).

(** Whether a rounded value is beyond the largest binary64. *)
Definition overflows (r : Q) : bool := Qle_bool (pow2 emax) (Qabs r).

(** [a / b] on two [int]s: the correctly rounded quotient. *)
Definition truediv (a b : Z) : exn + Q :=
  if b =? 0 then inl ZeroDivisionError
  else let r := RN (inject_Z a / inject_Z b) in
       if overflows r then inl OverflowError else inr r.

(** [x * k] for a finite float [x] and an [int] [k] below 2^53. *)
Definition fmul (x : Q) (k : Z) : float_value :=
  let r := RN (x * inject_Z k) in
  if overflows r then Infinite else Finite r.

(** [int(x)]: truncation toward zero. *)
Definition int_of_float (x : float_value) : exn + Z :=
  match x with
  | Finite q => inr (if Qle_bool 0 q then Qfloor q else Qceiling q)
  | Infinite => inl OverflowError
  | NaN => inl ValueError
  end.

(** [x // k] for a float [x] and an [int] [k]: the floor of the quotient
    (exact for [x] below 2^53); an infinite or NaN [x] gives NaN. *)
Definition floordiv (x : float_value) (k : Z) : exn + float_value :=
  if k =? 0 then inl ZeroDivisionError
  else match x with
       | Finite q => inr (Finite (inject_Z (Qfloor (q / inject_Z k))))
       | _ => inr NaN
       end.

(** [str(z)] and [f"{z:03d}"] for an [int]. *)
Definition str (z : Z) : string := NilZero.string_of_int (Z.to_int z).

Fixpoint zeros (n : nat) : string :=
  match n with O => EmptyString | S k => String "0" (zeros k) end.

Definition fmt_03d (z : Z) : string :=
  let d := str (Z.abs z) in
  let sign := if z <? 0 then "-"%string else EmptyString in
  (sign ++ zeros (3 - String.length sign - String.length d) ++ d)%string.

(** [str(x)] for the optional [int] a tuple of [None]s may hold. *)
Definition str_opt (x : option Z) : string :=
  match x with Some z => str z | None => "None"%string end.

Definition is_space (c : ascii) : bool :=
  let n := nat_of_ascii c in
  (((9 <=? n) && (n <=? 13)) || ((28 <=? n) && (n <=? 32)))%nat.

Fixpoint lstrip (s : string) : string :=
  match s with
  | String c s' => if is_space c then lstrip s' else s
  | EmptyString => EmptyString
  end.

Fixpoint rstrip (s : string) : string :=
  match s with
  | EmptyString => EmptyString
  | String c s' =>
      match rstrip s' with
      | EmptyString => if is_space c then EmptyString else String c EmptyString
      | r => String c r
      end
  end.

(** [s.strip()] *)
Definition strip (s : string) : string := rstrip (lstrip s).

(** [s.split(sep)] for a one-character separator. *)
Fixpoint split_on (sep : ascii) (s : string) : list string :=
  match s with
  | EmptyString => [EmptyString]
  | String c s' =>
      if Ascii.eqb c sep then EmptyString :: split_on sep s'
      else match split_on sep s' with
           | p :: ps => String c p :: ps
           | [] => [String c EmptyString]
           end
  end.

(** [s.split()]: the maximal runs of non-space characters. *)
Fixpoint split_ws_aux (cur : string) (s : string) : list string :=
  match s with
  | EmptyString => match cur with EmptyString => [] | _ => [cur] end
  | String c s' =>
      if is_space c
      then match cur with
           | EmptyString => split_ws_aux EmptyString s'
           | _ => cur :: split_ws_aux EmptyString s'
           end
      else split_ws_aux (cur ++ String c EmptyString) s'
  end.

Definition split_ws (s : string) : list string := split_ws_aux EmptyString s.

Definition digit_of (c : ascii) : option Z :=
  let n := nat_of_ascii c in
  if ((48 <=? n) && (n <=? 57))%nat then Some (Z.of_nat (n - 48)) else None.

(** Decimal digits, single underscores allowed between two digits. *)
Fixpoint digits (acc : Z) (after_digit : bool) (s : string) : option Z :=
  match s with
  | EmptyString => if after_digit then Some acc else None
  | String c s' =>
      match digit_of c with
      | Some d => digits (10 * acc + d) true s'
      | None =>
          if (Ascii.eqb c "_" && after_digit)%bool then digits acc false s' else None
      end
  end.

(** [int(s)] on ASCII text: surrounding white space, an optional sign,
    decimal digits.  [None] is [ValueError].  (The interpreter's optional
    cap on the number of digits is not modelled.) *)
Definition int_of_str (s : string) : option Z :=
  match strip s with
  | String "+" r => digits 0 false r
  | String "-" r => option_map Z.opp (digits 0 false r)
  | r => digits 0 false r
  end.

End Py.

Import Py.

(* ================================================================== *)
(** ** The worker: data *)

Open Scope string_scope.
Open Scope list_scope.

(** The constructor arguments of [WorkerThread]. *)
Record WorkerThread := {
  input_path : string;
  output_dir : string;
  segment_duration : Z;
  mode : string;
  resolution : string;
  scale_crop : bool
}.

(** The interpreter's path and number functions, which the repository calls
    and does not define. *)
Record runtime := {
  basename : string -> string;                 (* os.path.basename *)
  splitext : string -> string * string;        (* os.path.splitext *)
  join : string -> string -> string;           (* os.path.join *)
  float_of_str : string -> option float_value  (* float(s); None is ValueError *)
}.

(** What [subprocess.run] comes back with. *)
Inductive completed :=
| Raised (e : exn)
| Exited (returncode : Z) (stdout stderr : string).

(** The machine the worker runs on: the outcome of [get_ffmpeg_path] and of
    each external process; [encode i] is the outcome of the ffmpeg call of
    loop index [i]. *)
Record host := {
  ffmpeg_path : option string;
  probe_duration : completed;
  probe_resolution : completed;
  encode : Z -> completed
}.

(** One element of an argument list: a literal, or [str(x)] of a number. *)
Inductive arg := Lit (s : string) | Num (x : number).

(** The lines the worker emits, by template. *)
Inductive text :=
| ffmpeg_not_found
| probing
| duration_unavailable
| original_resolution_is (res : string)
| target_resolution_is (w h : Z)
| duration_and_segments (total : Q) (n : Z)
| scaling_full_frame
| scaling_fit
| switching_to_precise
| fast_mode_banner
| precise_mode_banner
| creating_segment (ordinal : Z) (start_time : Z) (duration : number)
| segment_warning (ordinal : Z) (stderr : string)
| segment_ready (ordinal : Z)
| segment_error (ordinal : Z) (stderr : string)
| files_saved_in (dir : string)
| exception_text (e : exn).

(** The four Qt signals of [WorkerThread]. *)
Inductive signal :=
| progress (t : text)
| finished (ok : bool) (t : text)
| error (t : text)
| segment_progress (percent : Z).

(** What the worker does to the outside, in order. *)
Inductive effect :=
| Emit (s : signal)
| Spawn (cmd : list arg).

(** Control flow of a block of [run]: falls through with a value, executes
    [return], or raises. *)
Inductive flow (A : Type) :=
| Next (a : A)
| Return
| Raise (e : exn).

Arguments Next {A} a.
Arguments Return {A}.
Arguments Raise {A} e.

Definition action (A : Type) : Type := (list effect * flow A)%type.

Definition ret {A} (a : A) : action A := ([], Next a).

Definition bind {A B} (m : action A) (k : A -> action B) : action B :=
  match m with
  | (tr, Next a) => let (tr', r) := k a in (tr ++ tr', r)
  | (tr, Return) => (tr, Return)
  | (tr, Raise e) => (tr, Raise e)
  end.

Declare Scope action_scope.
Delimit Scope action_scope with action.
Notation "x <- m ;; k" := (bind m (fun x => k))
  (at level 61, m at next level, right associativity) : action_scope.
Notation "m ;; k" := (bind m (fun _ => k))
  (at level 61, right associativity) : action_scope.

Definition emit (s : signal) : action unit := ([Emit s], Next tt).
Definition return_ {A} : action A := ([], Return).
Definition raise {A} (e : exn) : action A := ([], Raise e).

(** [subprocess.run(cmd, capture_output=True, ...)] *)
Definition subprocess_run (cmd : list arg) (c : completed) : action (Z * string * string) :=
  match c with
  | Raised e => ([Spawn cmd], Raise e)
  | Exited rc out err => ([Spawn cmd], Next (rc, out, err))
  end.

(* ================================================================== *)
(** ** The worker: [calculate_target_resolution] and [run] *)

Definition lift {A} (r : exn + A) : action A :=
  match r with inl e => raise e | inr a => ret a end.

(** [orig_width, orig_height = map(int, original_res.split('x'))]; [None]
    is any exception of that line. *)
Definition parse_resolution (original_res : string) : option (Z * Z) :=
  match map int_of_str (split_on "x" original_res) with
  | [Some w; Some h] => Some (w, h)
  | _ => None
  end.

(** [int(n * p / q)] *)
Definition int_ratio (n p q : Z) : exn + Z :=
  match truediv (n * p) q with
  | inl e => inl e
  | inr x => int_of_float (Finite x)
  end.

(** [calculate_target_resolution]; [inr None] is the pair [(None, None)]. *)
Definition calculate_target_resolution (original_res target_ratio : string)
  : exn + option (Z * Z) :=
  if (target_ratio =? "original")%string then inr None
  else
    let '(orig_width, orig_height) :=
      match parse_resolution original_res with
      | Some p => p
      | None => (1920, 1080)
      end in
    if (target_ratio =? "9:16")%string then
      let target_height := Z.min orig_height 1920 in
      match int_ratio target_height 9 16 with
      | inl e => inl e
      | inr target_width => inr (Some (target_width, target_height))
      end
    else if (target_ratio =? "4:5")%string then
      let target_height := Z.min orig_height 1350 in
      match int_ratio target_height 4 5 with
      | inl e => inl e
      | inr target_width => inr (Some (target_width, target_height))
      end
    else if (target_ratio =? "1:1")%string then
      let target_size := Z.min (Z.min orig_width orig_height) 1080 in
      inr (Some (target_size, target_size))
    else if (target_ratio =? "16:9")%string then
      let target_width := Z.min orig_width 1920 in
      match int_ratio target_width 9 16 with
      | inl e => inl e
      | inr target_height => inr (Some (target_width, target_height))
      end
    else inr None.

(** [int(total_duration // segment_duration) + 1] *)
Definition count_segments (total_duration : float_value) (seg : Z) : exn + Z :=
  match floordiv total_duration seg with
  | inl e => inl e
  | inr d => match int_of_float d with
             | inl e => inl e
             | inr n => inr (n + 1)
             end
  end.

(** [int((i + 1) / num_segments * 100)] *)
Definition percentage (i num_segments : Z) : exn + Z :=
  match truediv (i + 1) num_segments with
  | inl e => inl e
  | inr x => int_of_float (fmul x 100)
  end.

(** The duration of the segment that starts at [start_time], or [None] where
    the loop breaks. *)
Definition segment_length (total : Q) (seg start_time : Z) : option number :=
  let remaining_time := (total - inject_Z start_time)%Q in
  if Qle_bool remaining_time 0 then None
  else if Qlt_bool remaining_time (inject_Z seg) then Some (Float remaining_time)
  else Some (Int seg).

Definition filter_args (scale_filter : string) : list arg :=
  match scale_filter with
  | EmptyString => []
  | _ => map Lit (split_ws scale_filter)
  end.

Definition fast_cmd (ffmpeg input : string) (start_time : Z) (duration : number)
    (scale_filter output_file : string) : list arg :=
  [ Lit (ffmpeg ++ "ffmpeg")%string;
    Lit "-accurate_seek";
    Lit "-ss"; Num (Int start_time);
    Lit "-i"; Lit input;
    Lit "-t"; Num duration;
    Lit "-c"; Lit "copy";
    Lit "-map"; Lit "0:v";
    Lit "-map"; Lit "0:a" ]
  ++ filter_args scale_filter ++ [ Lit output_file ].

Definition precise_cmd (ffmpeg input : string) (start_time : Z) (duration : number)
    (scale_filter output_file : string) : list arg :=
  [ Lit (ffmpeg ++ "ffmpeg")%string;
    Lit "-accurate_seek";
    Lit "-ss"; Num (Int start_time);
    Lit "-i"; Lit input;
    Lit "-t"; Num duration;
    Lit "-c:v"; Lit "libx264";
    Lit "-c:a"; Lit "aac";
    Lit "-preset"; Lit "medium";
    Lit "-crf"; Lit "23";
    Lit "-b:a"; Lit "192k";
    Lit "-map"; Lit "0:v";
    Lit "-map"; Lit "0:a";
    Lit "-movflags"; Lit "+faststart" ]
  ++ filter_args scale_filter ++ [ Lit output_file ].

Definition crop_filter (w h : option Z) : string :=
  ("-vf scale=" ++ str_opt w ++ "x" ++ str_opt h
   ++ ":force_original_aspect_ratio=increase,crop=" ++ str_opt w ++ ":" ++ str_opt h)%string.

Definition pad_filter (w h : option Z) : string :=
  ("-vf scale=" ++ str_opt w ++ ":" ++ str_opt h
   ++ ":force_original_aspect_ratio=decrease,pad=" ++ str_opt w ++ ":" ++ str_opt h
   ++ ":(ow-iw)/2:(oh-ih)/2")%string.

(** The locals of [run] that are live when the segment loops start. *)
Record locals := {
  ffmpeg : string;          (* ffmpeg_path *)
  filename : string;
  ext : string;
  total_duration : Q;
  num_segments : Z;
  scale_filter : string;
  run_mode : string         (* self.mode after the forced switch *)
}.

Section Worker.

Variable rt : runtime.
Variable h : host.
Variable self : WorkerThread.

Local Open Scope action_scope.

Definition duration_cmd (ffmpeg_path : string) : list arg :=
  [ Lit (ffmpeg_path ++ "ffprobe")%string; Lit "-v"; Lit "error";
    Lit "-show_entries"; Lit "format=duration";
    Lit "-of"; Lit "default=noprint_wrappers=1:nokey=1"; Lit (input_path self) ].

Definition resolution_cmd (ffmpeg_path : string) : list arg :=
  [ Lit (ffmpeg_path ++ "ffprobe")%string; Lit "-v"; Lit "error";
    Lit "-select_streams"; Lit "v:0";
    Lit "-show_entries"; Lit "stream=width,height";
    Lit "-of"; Lit "csv=s=x:p=0"; Lit (input_path self) ].

(** The block under [if self.resolution != "original"]: the scale filter
    and the mode the loops will run in. *)
Definition plan_scaling (target : option (Z * Z)) : action (string * string) :=
  if negb (resolution self =? "original")%string then
    let target_width := option_map fst target in
    let target_height := option_map snd target in
    scale_filter <-
      (if scale_crop self
       then emit (progress scaling_full_frame) ;;
            ret (crop_filter target_width target_height)
       else emit (progress scaling_fit) ;;
            ret (pad_filter target_width target_height)) ;;
    if (mode self =? "fast")%string
    then emit (progress switching_to_precise) ;; ret (scale_filter, "precise")
    else ret (scale_filter, mode self)
  else ret (EmptyString, mode self).

(** [run] up to the mode test: tool lookup, the two probes, the target
    resolution, the segment count, the scale filter and the mode switch. *)
Definition prepare : action locals :=
  let filename := fst (splitext rt (basename rt (input_path self))) in
  let ext := snd (splitext rt (input_path self)) in
  match ffmpeg_path h with
  | None | Some EmptyString => emit (error ffmpeg_not_found) ;; return_
  | Some ffmpeg_path =>
      emit (progress probing) ;;
      result <- subprocess_run (duration_cmd ffmpeg_path) (probe_duration h) ;;
      let '(returncode, stdout, _) := result in
      if negb (returncode =? 0)%Z then emit (error duration_unavailable) ;; return_
      else
        total_duration <-
          lift (match float_of_str rt (strip stdout) with
                | Some x => inr x
                | None => inl ValueError
                end) ;;
        res_result <- subprocess_run (resolution_cmd ffmpeg_path) (probe_resolution h) ;;
        let '(res_returncode, res_stdout, _) := res_result in
        let original_resolution :=
          if (res_returncode =? 0)%Z then strip res_stdout else "1920x1080" in
        emit (progress (original_resolution_is original_resolution)) ;;
        target <- lift (calculate_target_resolution original_resolution (resolution self)) ;;
        match target with
        | Some (target_width, target_height) =>
            if (negb (target_width =? 0)%Z && negb (target_height =? 0)%Z)%bool
            then emit (progress (target_resolution_is target_width target_height))
            else ret tt
        | None => ret tt
        end ;;
        num_segments <- lift (count_segments total_duration (segment_duration self)) ;;
        match total_duration with
        | Finite total =>
            emit (progress (duration_and_segments total num_segments)) ;;
            plan <- plan_scaling target ;;
            let '(scale_filter, mode) := plan in
            ret {| ffmpeg := ffmpeg_path; filename := filename; ext := ext;
                   total_duration := total; num_segments := num_segments;
                   scale_filter := scale_filter; run_mode := mode |}
        | Infinite | NaN => raise ValueError   (* not reached: [int] has raised *)
        end
  end.

Section Loops.

Variable l : locals.

(** [for i in range(num_segments)] of the fast branch; [fuel] is the
    number of indices left in the range. *)
Fixpoint fast_loop (fuel : nat) (i : Z) : action unit :=
  match fuel with
  | O => ret tt
  | S fuel' =>
      let start_time := i * segment_duration self in
      match segment_length (total_duration l) (segment_duration self) start_time with
      | None => ret tt
      | Some duration =>
          let output_file :=
            join rt (output_dir self) (filename l ++ "_" ++ fmt_03d i ++ ext l)%string in
          let cmd := fast_cmd (ffmpeg l) (input_path self) start_time duration
                              (scale_filter l) output_file in
          emit (progress (creating_segment (i + 1) start_time duration)) ;;
          process <- subprocess_run cmd (encode h i) ;;
          let '(returncode, _, stderr) := process in
          (if negb (returncode =? 0)%Z
           then emit (progress (segment_warning (i + 1) stderr))
           else emit (progress (segment_ready (i + 1)))) ;;
          p <- lift (percentage i (num_segments l)) ;;
          emit (segment_progress p) ;;
          if Qle_bool (total_duration l) (inject_Z start_time) then ret tt
          else fast_loop fuel' (i + 1)
      end
  end.

(** [for i in range(num_segments)] of the precise branch. *)
Fixpoint precise_loop (fuel : nat) (i : Z) : action unit :=
  match fuel with
  | O => ret tt
  | S fuel' =>
      let start_time := i * segment_duration self in
      match segment_length (total_duration l) (segment_duration self) start_time with
      | None => ret tt
      | Some duration =>
          let output_file :=
            join rt (output_dir self) (filename l ++ "_" ++ fmt_03d i ++ ".mp4")%string in
          let cmd := precise_cmd (ffmpeg l) (input_path self) start_time duration
                                 (scale_filter l) output_file in
          emit (progress (creating_segment (i + 1) start_time duration)) ;;
          process <- subprocess_run cmd (encode h i) ;;
          let '(returncode, _, stderr) := process in
          (if negb (returncode =? 0)%Z
           then emit (error (segment_error (i + 1) stderr)) ;; return_
           else emit (progress (segment_ready (i + 1)))) ;;
          p <- lift (percentage i (num_segments l)) ;;
          emit (segment_progress p) ;;
          if Qle_bool (total_duration l) (inject_Z start_time) then ret tt
          else precise_loop fuel' (i + 1)
      end
  end.

(** [if self.mode == "fast": ... else: ...] *)
Definition split : action unit :=
  if (run_mode l =? "fast")%string
  then emit (progress fast_mode_banner) ;;
       fast_loop (Z.to_nat (num_segments l)) 0
  else emit (progress precise_mode_banner) ;;
       precise_loop (Z.to_nat (num_segments l)) 0.

End Loops.

(** The body of the [try] of [run]. *)
Definition run_body : action unit :=
  l <- prepare ;;
  split l ;;
  emit (finished true (files_saved_in (output_dir self))).

(** [run]: the [try] body, and the [except Exception] handler. *)
Definition run : list effect :=
  match run_body with
  | (tr, Raise e) => tr ++ [Emit (error (exception_text e))]
  | (tr, _) => tr
  end.

End Worker.

(* ================================================================== *)
(** ** Reading a trace *)

(** The seek position and the duration limit of a segment command (its
    fourth and eighth arguments); the probe commands have neither. *)
Definition segment_of (cmd : list arg) : option (number * number) :=
  match cmd with
  | _ :: _ :: _ :: Num start_time :: _ :: _ :: _ :: Num duration :: _ =>
      Some (start_time, duration)
  | _ => None
  end.

Definition is_segment_cmd (cmd : list arg) : bool :=
  match segment_of cmd with Some _ => true | None => false end.

(** The segment commands a trace spawned, in order. *)
Definition segment_cmds (tr : list effect) : list (list arg) :=
  flat_map (fun e => match e with
                     | Spawn cmd => if is_segment_cmd cmd then [cmd] else []
                     | _ => []
                     end) tr.

(** The [(start, duration)] pairs of the segments a trace executed. *)
Definition executed (tr : list effect) : list (number * number) :=
  flat_map (fun cmd => match segment_of cmd with Some p => [p] | None => [] end)
           (segment_cmds tr).

(** The values of the [segment_progress] signal, in order. *)
Definition percentages (tr : list effect) : list Z :=
  flat_map (fun e => match e with
                     | Emit (segment_progress p) => [p]
                     | _ => []
                     end) tr.

(** The ordinals (index + 1) of the segments a warning line was emitted for. *)
Definition warned (tr : list effect) : list Z :=
  flat_map (fun e => match e with
                     | Emit (progress (segment_warning k _)) => [k]
                     | _ => []
                     end) tr.

(** The ordinals of the segments reported ready. *)
Definition succeeded (tr : list effect) : list Z :=
  flat_map (fun e => match e with
                     | Emit (progress (segment_ready k)) => [k]
                     | _ => []
                     end) tr.

(** The terminal state of a run: the last [finished] or [error] signal. *)
Inductive terminal := Completed | Aborted (reason : text).

Definition terminal_of (tr : list effect) : option terminal :=
  match last tr (Spawn []) with
  | Emit (finished true _) => Some Completed
  | Emit (finished false t) => Some (Aborted t)
  | Emit (error t) => Some (Aborted t)
  | _ => None
  end.


(** [total] is an exact integer multiple of [seg]. *)
Definition is_multiple (total : Q) (seg : Z) : Prop :=
  exists k : Z, (total == inject_Z (k * seg))%Q.

(** The percentage the code computes for index [i] when nothing raises. *)
Definition pct (i n : Z) : Z :=
  Qfloor (RN (RN (inject_Z (i + 1) / inject_Z n) * 100)).

(** The percentage of the specification: [round((i+1)/n * 100)], Python's
    [round] being round-half-even. *)
Definition spec_round_percent (i n : Z) : Z :=
  rne (RN (RN (inject_Z (i + 1) / inject_Z n) * 100)).


(* ================================================================== *)
(** ** The segment plan and the commands, in closed form *)

(** [i, i+1, ..., i+m-1] *)
Fixpoint zrange (i : Z) (m : nat) : list Z :=
  match m with
  | O => []
  | S m' => i :: zrange (i + 1) m'
  end.

(** The [(start, duration)] pairs the loops go through from index [i] with
    [fuel] indices left in the range, when nothing interrupts them. *)
Fixpoint plan (total : Q) (seg : Z) (fuel : nat) (i : Z) : list (number * number) :=
  match fuel with
  | O => []
  | S fuel' =>
      match segment_length total seg (i * seg) with
      | None => []
      | Some duration => (Int (i * seg), duration) :: plan total seg fuel' (i + 1)
      end
  end.

(** The duration of the segment of index [j]. *)
Definition duration_at (total : Q) (seg : Z) (j : Z) : number :=
  match segment_length total seg (j * seg) with
  | Some d => d
  | None => Int seg
  end.

(** The command of index [i] in each mode. *)
Definition fast_call (rt : runtime) (self : WorkerThread) (l : locals) (i : Z) : list arg :=
  fast_cmd (ffmpeg l) (input_path self) (i * segment_duration self)
           (duration_at (total_duration l) (segment_duration self) i)
           (scale_filter l)
           (join rt (output_dir self) (filename l ++ "_" ++ fmt_03d i ++ ext l)%string).

Definition precise_call (rt : runtime) (self : WorkerThread) (l : locals) (i : Z) : list arg :=
  precise_cmd (ffmpeg l) (input_path self) (i * segment_duration self)
              (duration_at (total_duration l) (segment_duration self) i)
              (scale_filter l)
              (join rt (output_dir self) (filename l ++ "_" ++ fmt_03d i ++ ".mp4")%string).

(** The line that announces segment [i], and the line that follows a fast
    segment whose process exited with [rc]. *)
Definition creating (self : WorkerThread) (l : locals) (i : Z) : effect :=
  Emit (progress (creating_segment (i + 1) (i * segment_duration self)
                    (duration_at (total_duration l) (segment_duration self) i))).

Definition fast_note (i rc : Z) (err : string) : effect :=
  Emit (progress (if negb (rc =? 0)%Z then segment_warning (i + 1) err
                  else segment_ready (i + 1))).

(** Whether [run] switches a fast request to precise. *)
Definition escalated (self : WorkerThread) : bool :=
  (negb (resolution self =? "original")%string && (mode self =? "fast")%string)%bool.

(** A process that did not exit with status 0. *)
Definition failed (c : completed) : bool :=
  match c with
  | Exited rc _ _ => negb (rc =? 0)%Z
  | Raised _ => true
  end.

Definition exits (c : completed) : Prop :=
  exists rc out err, c = Exited rc out err.

Definition exits_zero (c : completed) : Prop :=
  exists out err, c = Exited 0 out err.

(** The lines that are warnings. *)
Definition is_warning (t : text) : bool :=
  match t with
  | segment_warning _ _ => true
  | _ => false
  end.

Definition warnings (tr : list effect) : list text :=
  flat_map (fun e => match e with
                     | Emit (progress t) => if is_warning t then [t] else []
                     | _ => []
                     end) tr.

(** The same host with another outcome of the resolution probe. *)
Definition with_resolution_probe (h : host) (c : completed) : host :=
  {| ffmpeg_path := ffmpeg_path h;
     probe_duration := probe_duration h;
     probe_resolution := c;
     encode := encode h |}.

(** A trace with the text of the original-resolution line blanked. *)
Definition redact (e : effect) : effect :=
  match e with
  | Emit (progress (original_resolution_is _)) =>
      Emit (progress (original_resolution_is EmptyString))
  | _ => e
  end.

(* ------------------------------------------------------------------ *)
(** *** A concrete machine to run the worker on *)

Definition sample_runtime : runtime :=
  {| basename := fun s => s;
     splitext := fun s => ("clip", ".mov");
     join := fun d n => (d ++ "/" ++ n)%string;
     float_of_str := fun s => option_map (fun z => Finite (inject_Z z)) (int_of_str s) |}.

Definition sample_host (duration_out resolution_out : string) (failing : Z -> bool) : host :=
  {| ffmpeg_path := Some "C:/tools/";
     probe_duration := Exited 0 duration_out EmptyString;
     probe_resolution := Exited 0 resolution_out EmptyString;
     encode := fun i => if failing i then Exited 1 EmptyString "boom"
                        else Exited 0 EmptyString EmptyString |}.

Definition sample_worker (seg : Z) (m r : string) : WorkerThread :=
  {| input_path := "clip.mov";
     output_dir := "clip";
     segment_duration := seg;
     mode := m;
     resolution := r;
     scale_crop := true |}.

Definition none_failing (i : Z) : bool := false.
Definition second_failing (i : Z) : bool := (i =? 1)%Z.

(** What follows the loops: the [finished] signal, nothing after a
    [return], the handler's [error] after an exception. *)
Definition run_tail (self : WorkerThread) (fl : flow unit) : list effect :=
  match fl with
  | Next _ => [Emit (finished true (files_saved_in (output_dir self)))]
  | Return => []
  | Raise e => [Emit (error (exception_text e))]
  end.

(** [f] holds of 0, 1, ..., m-1. *)
Fixpoint all_below (f : Z -> bool) (m : nat) : bool :=
  match m with
  | O => true
  | S m' => (f (Z.of_nat m') && all_below f m')%bool
  end.

(** [int(z * p / q)] is the floor of the exact quotient. *)
Definition ratio_is_floor (p q z : Z) : bool :=
  match int_ratio z p q with
  | inr r => (r =? z * p / q)%Z
  | inl _ => false
  end.

(** What [run] does once the preparation has ended with flow [fl]. *)
Definition after_prepare (rt : runtime) (h : host) (self : WorkerThread)
    (fl : flow locals) : list effect :=
  match fl with
  | Next l => fst (split rt h self l) ++ run_tail self (snd (split rt h self l))
  | Return => []
  | Raise e => [Emit (error (exception_text e))]
  end.

(** The percentage computed with the Standard Library's executable binary64
    ([SFdiv], [SFmul]) denotes the same rational as the one computed with
    [RN]. *)
Definition percent_agrees (a b : Z) : bool :=
  match SF2Q (SFmul prec emax (SFdiv prec emax (SF_of_Z a) (SF_of_Z b)) (SF_of_Z 100)) with
  | Some q => Qeq_bool q (RN (RN (inject_Z a / inject_Z b) * 100))
  | None => false
  end.

(** [f a b] for all [1 <= a <= b <= m]. *)
Definition all_pairs (f : Z -> Z -> bool) (m : nat) : bool :=
  all_below (fun b => all_below (fun a => f (a + 1) (b + 1)) (Z.to_nat (b + 1))) m.

(* ================================================================== *)
(** ** Around the worker: tool lookup and the window that starts it *)

(** What [get_ffmpeg_path] and [start_splitting] ask of the operating
    system. *)
Record installation := {
  executable : string;                 (* sys.executable *)
  frozen : bool;                       (* getattr(sys, 'frozen', False) *)
  abspath : string -> string;          (* os.path.abspath *)
  dirname : string -> string;          (* os.path.dirname *)
  sep : ascii;                         (* os.sep *)
  file_exists : string -> bool;        (* os.path.exists *)
  ffmpeg_version : completed;          (* subprocess.run(["ffmpeg", "-version"], ...) *)
  makedirs : string -> option exn      (* os.makedirs(..., exist_ok=True); None is success *)
}.

(** [get_ffmpeg_path]: beside the executable, in the bundle directory of a
    frozen build, in the current directory, on the search path. *)
Definition get_ffmpeg_path (rt : runtime) (os : installation) : option string :=
  let current_dir := dirname os (abspath os (executable os)) in
  let ffmpeg_exe := join rt current_dir "ffmpeg.exe" in
  if file_exists os ffmpeg_exe
  then Some (current_dir ++ String (sep os) EmptyString)%string
  else
    let bundled :=
      if frozen os then
        let bundle_dir := dirname os (executable os) in
        let ffmpeg_exe := join rt bundle_dir "ffmpeg.exe" in
        if file_exists os ffmpeg_exe
        then Some (bundle_dir ++ String (sep os) EmptyString)%string
        else None
      else None in
    match bundled with
    | Some p => Some p
    | None =>
        if file_exists os "ffmpeg.exe" then Some EmptyString
        else match ffmpeg_version os with
             | Exited 0 _ _ => Some EmptyString
             | _ => None       (* check=True raises on any other outcome *)
             end
    end.

(** The entries of the resolution combo box and the dictionary
    [resolution_map] of [start_splitting]. *)
Definition resolution_items : list string :=
  [ "Оригінальна"; "16:9 (Горизонтальна)"; "9:16 (Вертикальна)";
    "4:5 (Instagram)"; "1:1 (Квадрат)" ].

Definition resolution_map : list (string * string) :=
  [ ("Оригінальна", "original");
    ("16:9 (Горизонтальна)", "16:9");
    ("9:16 (Вертикальна)", "9:16");
    ("4:5 (Instagram)", "4:5");
    ("1:1 (Квадрат)", "1:1") ].

(** [d[k]] on a dictionary literal; [None] is [KeyError]. *)
Fixpoint dict_get (d : list (string * string)) (k : string) : option string :=
  match d with
  | [] => None
  | (k', v) :: d' => if (k' =? k)%string then Some v else dict_get d' k
  end.

(** The widgets [start_splitting] reads. *)
Record window := {
  selected_path : option string;       (* self.input_path *)
  duration_spin : Z;                   (* self.duration_spin.value() *)
  fast_radio : bool;                   (* self.fast_radio.isChecked() *)
  resolution_combo : string;           (* self.resolution_combo.currentText() *)
  scale_checkbox : bool                (* self.scale_checkbox.isChecked() *)
}.

Inductive start_outcome :=
| NotStarted                           (* no input file: plain return *)
| DirectoryFailed (e : exn)            (* makedirs raised: logged, return *)
| KeyError (key : string)              (* resolution_map[...] raised *)
| Started (worker : WorkerThread).

(** [start_splitting], up to the construction of the worker. *)
Definition start_splitting (rt : runtime) (os : installation) (ui : window) : start_outcome :=
  match selected_path ui with
  | None | Some EmptyString => NotStarted
  | Some path =>
      let folder := dirname os path in
      let filename := fst (splitext rt (basename rt path)) in
      let output_dir := join rt folder filename in
      match makedirs os output_dir with
      | Some e => DirectoryFailed e
      | None =>
          let segment_duration := duration_spin ui in
          let mode := if fast_radio ui then "fast" else "precise" in
          match dict_get resolution_map (resolution_combo ui) with
          | None => KeyError (resolution_combo ui)
          | Some resolution =>
              Started {| input_path := path;
                         output_dir := output_dir;
                         segment_duration := segment_duration;
                         mode := mode;
                         resolution := resolution;
                         scale_crop := scale_checkbox ui |}
          end
      end
  end.

(* ------------------------------------------------------------------ *)
(** *** More ways to read strings and traces *)

(** The signals that end a run. *)
Definition is_terminal (e : effect) : bool :=
  match e with
  | Emit (finished _ _) | Emit (error _) => true
  | _ => false
  end.

(** Effects before the loops: log lines and probe processes. *)
Definition is_preparation (e : effect) : bool :=
  match e with
  | Emit (progress _) => true
  | Spawn cmd => negb (is_segment_cmd cmd)
  | _ => false
  end.

(** Effects of the loops that end nothing: log lines, percentages, segment
    processes. *)
Definition is_ongoing (e : effect) : bool := negb (is_terminal e).

Fixpoint no_space (s : string) : bool :=
  match s with
  | EmptyString => true
  | String c s' => (negb (is_space c) && no_space s')%bool
  end.

Fixpoint count_char (c : ascii) (s : string) : nat :=
  match s with
  | EmptyString => O
  | String c' s' => ((if Ascii.eqb c' c then 1 else 0) + count_char c s')%nat
  end.

(** The value of a decimal number read from the left, [acc] being what was
    read so far. *)
Fixpoint uint_value (acc : Z) (d : Decimal.uint) : Z :=
  match d with
  | Decimal.Nil => acc
  | Decimal.D0 d' => uint_value (10 * acc + 0) d'
  | Decimal.D1 d' => uint_value (10 * acc + 1) d'
  | Decimal.D2 d' => uint_value (10 * acc + 2) d'
  | Decimal.D3 d' => uint_value (10 * acc + 3) d'
  | Decimal.D4 d' => uint_value (10 * acc + 4) d'
  | Decimal.D5 d' => uint_value (10 * acc + 5) d'
  | Decimal.D6 d' => uint_value (10 * acc + 6) d'
  | Decimal.D7 d' => uint_value (10 * acc + 7) d'
  | Decimal.D8 d' => uint_value (10 * acc + 8) d'
  | Decimal.D9 d' => uint_value (10 * acc + 9) d'
  end.

(** The filter graph inside the scale filter: what follows [-vf ] in the
    f-string of either branch. *)
Definition filter_graph (crop : bool) (w h : option Z) : string :=
  if crop
  then ("scale=" ++ str_opt w ++ "x" ++ str_opt h
        ++ ":force_original_aspect_ratio=increase,crop=" ++ str_opt w ++ ":" ++ str_opt h)%string
  else ("scale=" ++ str_opt w ++ ":" ++ str_opt h
        ++ ":force_original_aspect_ratio=decrease,pad=" ++ str_opt w ++ ":" ++ str_opt h
        ++ ":(ow-iw)/2:(oh-ih)/2")%string.

(** The ratios [calculate_target_resolution] has a branch for. *)
Definition known_ratios : list string := ["9:16"; "4:5"; "1:1"; "16:9"].

(** Every command a trace spawned, in order: the probes and the segment
    commands alike. *)
Definition spawned (tr : list effect) : list (list arg) :=
  flat_map (fun e => match e with Spawn cmd => [cmd] | Emit _ => [] end) tr.


(** The file name the loops hand to [os.path.join] for index [i]. *)
Definition segment_name (l : locals) (precise : bool) (i : Z) : string :=
  (filename l ++ "_" ++ fmt_03d i ++ (if precise then ".mp4" else ext l))%string.

(** A machine where ffmpeg.exe is only in the current directory. *)
Definition sample_installation : installation :=
  {| executable := "C:/app/splitter.exe";
     frozen := true;
     abspath := fun s => s;
     dirname := fun s => "C:/app";
     sep := "/"%char;
     file_exists := fun p => (p =? "ffmpeg.exe")%string;
     ffmpeg_version := Exited 0 "ffmpeg version 6" EmptyString;
     makedirs := fun _ => None |}.

Definition sample_window (label : string) : window :=
  {| selected_path := Some "C:/videos/clip.mov";
     duration_spin := 60;
     fast_radio := true;
     resolution_combo := label;
     scale_checkbox := true |}.

(* ================================================================== *)
(** ** Facts *)
(** *** Rounding *)

Lemma pow2_pos e : (0 < pow2 e)%Q.
Proof. apply Qpower_0_lt. reflexivity. Qed.

Lemma pow2_add a b : (pow2 (a + b) == pow2 a * pow2 b)%Q.
Proof. apply Qpower_plus. discriminate. Qed.

Lemma pow2_le a b : a <= b -> (pow2 a <= pow2 b)%Q.
Proof. intros H. apply Qpower_le_compat_l; [exact H | discriminate]. Qed.

Lemma pow2_lt_inv a b : (pow2 a < pow2 b)%Q -> a < b.
Proof. intros H. apply (Qpower_lt_compat_l_inv 2); [exact H | reflexivity]. Qed.

Lemma pow2_Z k : 0 <= k -> (pow2 k == inject_Z (2 ^ k))%Q.
Proof. intros H. unfold pow2. rewrite Zpower_Qpower by exact H. reflexivity. Qed.

Lemma pow2_cancel a b : (pow2 (a - b) * pow2 b == pow2 a)%Q.
Proof. rewrite <- pow2_add. replace (a - b + b) with a by ring. reflexivity. Qed.

Lemma mag_spec q : (0 < q)%Q -> (pow2 (mag q - 1) <= q)%Q /\ (q < pow2 (mag q))%Q.
Proof.
  intros Hq. unfold mag.
  assert (Habs : Qabs q = q).
  { destruct q as [n d]. unfold Qlt in Hq. simpl in *. rewrite Z.abs_eq by lia. reflexivity. }
  rewrite Habs.
  set (a := Z.log2 (Qnum q)). set (b := Z.log2 (Zpos (Qden q))).
  assert (Hn : 0 < Qnum q) by (unfold Qlt in Hq; simpl in Hq; lia).
  assert (Ha : 0 <= a) by apply Z.log2_nonneg.
  assert (Hb : 0 <= b) by apply Z.log2_nonneg.
  destruct (Z.log2_spec (Qnum q) Hn) as [Ha1 Ha2]. fold a in Ha1, Ha2.
  destruct (Z.log2_spec (Zpos (Qden q)) (Pos2Z.is_pos _)) as [Hb1 Hb2]. fold b in Hb1, Hb2.
  set (D := inject_Z (Zpos (Qden q))).
  assert (HD : (0 < D)%Q) by (unfold D, Qlt; simpl; lia).
  assert (HqD : (q * D == inject_Z (Qnum q))%Q).
  { unfold D, Qeq, inject_Z; destruct q as [n d]; simpl. rewrite Pos.mul_1_r. ring. }
  assert (Hup : (q < pow2 (a - b + 1))%Q).
  { apply (Qmult_lt_r _ _ D HD). rewrite HqD.
    apply Qlt_le_trans with (pow2 (a + 1)).
    - rewrite pow2_Z by lia. rewrite <- Zlt_Qlt. exact Ha2.
    - replace (a + 1) with ((a - b + 1) + b) by ring. rewrite pow2_add.
      apply Qmult_le_l; [apply pow2_pos|].
      rewrite pow2_Z by lia. unfold D. rewrite <- Zle_Qle. exact Hb1. }
  assert (Hlo : (pow2 (a - b - 1) <= q)%Q).
  { apply (Qmult_le_r _ _ D HD). rewrite HqD.
    apply Qle_trans with (pow2 a).
    - replace a with ((a - b - 1) + (b + 1)) at 2 by ring. rewrite pow2_add.
      apply Qmult_le_l; [apply pow2_pos|].
      rewrite pow2_Z by lia. unfold D. rewrite <- Zle_Qle. lia.
    - rewrite pow2_Z by lia. rewrite <- Zle_Qle. exact Ha1. }
  destruct (Qle_bool (pow2 (a - b)) q) eqn:E.
  - apply Qle_bool_iff in E. replace (a - b + 1 - 1) with (a - b) by ring. split; assumption.
  - split; [exact Hlo|]. apply Qnot_le_lt. intros H. apply Qle_bool_iff in H. congruence.
Qed.

Lemma mag_le x y : (0 < x)%Q -> (x <= y)%Q -> mag x <= mag y.
Proof.
  intros Hx Hxy.
  assert (Hy : (0 < y)%Q) by (eapply Qlt_le_trans; eassumption).
  destruct (mag_spec x Hx) as [Hx1 _]. destruct (mag_spec y Hy) as [_ Hy2].
  assert (H : mag x - 1 < mag y).
  { apply pow2_lt_inv. eapply Qle_lt_trans; [exact Hx1|]. eapply Qle_lt_trans; eassumption. }
  lia.
Qed.

Lemma rne_Z z : rne (inject_Z z) = z.
Proof.
  unfold rne. rewrite Qfloor_Z.
  assert (H : (inject_Z z - inject_Z z ?= 1 # 2)%Q = Lt).
  { rewrite <- Qlt_alt. lra. }
  rewrite H. reflexivity.
Qed.

Lemma rne_bounds x : Qfloor x <= rne x <= Qfloor x + 1.
Proof.
  unfold rne. destruct (_ ?= _)%Q; [destruct (Z.even _)| |]; lia.
Qed.

Lemma rne_mono x y : (x <= y)%Q -> rne x <= rne y.
Proof.
  intros Hxy. pose proof (Qfloor_resp_le _ _ Hxy) as Hf.
  destruct (Z.eq_dec (Qfloor x) (Qfloor y)) as [E|NE].
  - unfold rne. rewrite <- E.
    destruct (x - inject_Z (Qfloor x) ?= 1 # 2)%Q eqn:Cx;
    destruct (y - inject_Z (Qfloor x) ?= 1 # 2)%Q eqn:Cy;
      try (destruct (Z.even (Qfloor x))); try lia;
      try rewrite <- Qeq_alt in *; try rewrite <- Qlt_alt in *; try rewrite <- Qgt_alt in *;
      exfalso; lra.
  - pose proof (rne_bounds x). pose proof (rne_bounds y). lia.
Qed.

Lemma RN_nonzero q : ~ (q == 0)%Q ->
  RN q = (inject_Z (rne (q * pow2 (- cexp q))) * pow2 (cexp q))%Q.
Proof.
  intros H. unfold RN. destruct (Qeq_bool q 0) eqn:E; [|reflexivity].
  apply Qeq_bool_iff in E. contradiction.
Qed.

Lemma RN_0 q : (q == 0)%Q -> RN q = 0%Q.
Proof. intros H. unfold RN. apply Qeq_bool_iff in H. rewrite H. reflexivity. Qed.

Lemma RN_pos_le x y : (0 < x)%Q -> (x <= y)%Q -> (RN x <= RN y)%Q.
Proof.
  intros Hx Hxy.
  assert (Hy : (0 < y)%Q) by (eapply Qlt_le_trans; eassumption).
  rewrite (RN_nonzero x) by (intros E; rewrite E in Hx; discriminate).
  rewrite (RN_nonzero y) by (intros E; rewrite E in Hy; discriminate).
  pose proof (mag_le x y Hx Hxy) as Hm.
  destruct (Z.eq_dec (cexp x) (cexp y)) as [E|NE].
  - rewrite E. apply Qmult_le_compat_r; [|apply Qlt_le_weak, pow2_pos].
    rewrite <- Zle_Qle. apply rne_mono.
    apply Qmult_le_compat_r; [exact Hxy|apply Qlt_le_weak, pow2_pos].
  - assert (Hlt : cexp x < cexp y) by (unfold cexp in *; lia).
    assert (Hey : cexp y = mag y - prec) by (unfold cexp in *; lia).
    assert (Hmx : mag x <= mag y - 1) by (unfold cexp in *; lia).
    destruct (mag_spec x Hx) as [_ Hx2]. destruct (mag_spec y Hy) as [Hy1 _].
    apply Qle_trans with (pow2 (mag y - 1)).
    + set (k := mag y - 1 - cexp x).
      assert (Hk : 0 <= k) by (unfold k, prec in *; lia).
      assert (Hr : rne (x * pow2 (- cexp x)) <= 2 ^ k).
      { rewrite <- (rne_Z (2 ^ k)). apply rne_mono. rewrite <- pow2_Z by exact Hk.
        unfold k. replace (mag y - 1 - cexp x) with ((mag y - 1) + - cexp x) by ring.
        rewrite pow2_add. apply Qmult_le_compat_r; [|apply Qlt_le_weak, pow2_pos].
        apply Qle_trans with (pow2 (mag x)); [apply Qlt_le_weak; exact Hx2|].
        apply pow2_le. exact Hmx. }
      apply Qle_trans with (inject_Z (2 ^ k) * pow2 (cexp x))%Q.
      * apply Qmult_le_compat_r; [|apply Qlt_le_weak, pow2_pos].
        rewrite <- Zle_Qle. exact Hr.
      * rewrite <- pow2_Z by exact Hk. unfold k. rewrite pow2_cancel. apply Qle_refl.
    + assert (Hr : 2 ^ (prec - 1) <= rne (y * pow2 (- cexp y))).
      { rewrite <- (rne_Z (2 ^ (prec - 1))). apply rne_mono.
        rewrite <- pow2_Z by (unfold prec; lia).
        replace (prec - 1) with ((mag y - 1) + - cexp y) by (rewrite Hey; ring).
        rewrite pow2_add. apply Qmult_le_compat_r; [exact Hy1|apply Qlt_le_weak, pow2_pos]. }
      apply Qle_trans with (inject_Z (2 ^ (prec - 1)) * pow2 (cexp y))%Q.
      * rewrite <- pow2_Z by (unfold prec; lia).
        replace (mag y - 1) with ((prec - 1) + cexp y) by (rewrite Hey; ring).
        rewrite pow2_add. apply Qle_refl.
      * apply Qmult_le_compat_r; [|apply Qlt_le_weak, pow2_pos].
        rewrite <- Zle_Qle. exact Hr.
Qed.

Lemma RN_nonneg x : (0 <= x)%Q -> (0 <= RN x)%Q.
Proof.
  intros Hx. destruct (Qeq_dec x 0) as [E|NE].
  - rewrite (RN_0 x E). apply Qle_refl.
  - rewrite (RN_nonzero x NE).
    apply Qmult_le_0_compat; [|apply Qlt_le_weak, pow2_pos].
    replace 0%Q with (inject_Z 0) by reflexivity. rewrite <- Zle_Qle.
    rewrite <- (rne_Z 0). apply rne_mono.
    apply Qmult_le_0_compat; [exact Hx|apply Qlt_le_weak, pow2_pos].
Qed.

Lemma RN_le x y : (0 <= x)%Q -> (x <= y)%Q -> (RN x <= RN y)%Q.
Proof.
  intros Hx Hxy. destruct (Qeq_dec x 0) as [E|NE].
  - rewrite (RN_0 x E). apply RN_nonneg. eapply Qle_trans; eassumption.
  - apply RN_pos_le; [|exact Hxy]. apply Qle_lteq in Hx. destruct Hx as [H|H]; [exact H|].
    exfalso. apply NE. symmetry. exact H.
Qed.

Lemma RN_comp x y : (0 <= x)%Q -> (x == y)%Q -> (RN x == RN y)%Q.
Proof.
  intros Hx E. apply Qle_antisym.
  - apply RN_le; [exact Hx | rewrite E; apply Qle_refl].
  - apply RN_le; [rewrite <- E; exact Hx | rewrite E; apply Qle_refl].
Qed.

(** [RN] against the Standard Library's binary64, on every quotient
    [a / b] with [1 <= a <= b <= 48], and on the value that separates
    truncation from rounding. *)
Lemma RN_agrees_with_SpecFloat : all_pairs percent_agrees 48 = true.
Proof. vm_compute. reflexivity. Qed.

Lemma RN_agrees_29_100 : percent_agrees 29 100 = true /\ pct 28 100 = 28.
Proof. vm_compute. split; reflexivity. Qed.

(** *** The percentage *)

Lemma RN_1 : (RN 1 == 1)%Q.
Proof. vm_compute. reflexivity. Qed.

Lemma RN_100 : (RN 100 == 100)%Q.
Proof. vm_compute. reflexivity. Qed.

Lemma small_no_overflow r : (0 <= r)%Q -> (r <= 100)%Q -> overflows r = false.
Proof.
  intros H0 H1. unfold overflows.
  destruct (Qle_bool (pow2 emax) (Qabs r)) eqn:E; [|reflexivity].
  apply Qle_bool_iff in E. rewrite Qabs_pos in E by exact H0.
  exfalso. apply (Qlt_irrefl 100).
  eapply Qlt_le_trans; [|eapply Qle_trans; [exact E|exact H1]].
  vm_compute. reflexivity.
Qed.

Lemma ratio_bounds i n : 0 <= i -> i + 1 <= n ->
  (0 < inject_Z (i + 1) / inject_Z n)%Q /\ (inject_Z (i + 1) / inject_Z n <= 1)%Q.
Proof.
  intros Hi Hn.
  assert (Hn0 : (0 < inject_Z n)%Q) by (rewrite <- (Zlt_Qlt 0); lia).
  split.
  - apply Qlt_shift_div_l; [exact Hn0|]. rewrite Qmult_0_l. rewrite <- (Zlt_Qlt 0). lia.
  - apply Qle_shift_div_r; [exact Hn0|]. rewrite Qmult_1_l. rewrite <- Zle_Qle. exact Hn.
Qed.

Lemma quotient_rounded_bounds i n : 0 <= i -> i + 1 <= n ->
  (0 <= RN (inject_Z (i + 1) / inject_Z n))%Q /\ (RN (inject_Z (i + 1) / inject_Z n) <= 1)%Q.
Proof.
  intros Hi Hn. destruct (ratio_bounds i n Hi Hn) as [H0 H1]. split.
  - apply RN_nonneg, Qlt_le_weak, H0.
  - rewrite <- RN_1. apply RN_le; [apply Qlt_le_weak, H0|exact H1].
Qed.

Lemma product_rounded_bounds x : (0 <= x)%Q -> (x <= 1)%Q ->
  (0 <= RN (x * 100))%Q /\ (RN (x * 100) <= 100)%Q.
Proof.
  intros H0 H1. split.
  - apply RN_nonneg. lra.
  - apply Qle_trans with (RN 100); [apply RN_le; lra|].
    rewrite RN_100. apply Qle_refl.
Qed.

Lemma percentage_ok i n : 0 <= i -> i + 1 <= n -> percentage i n = inr (pct i n).
Proof.
  intros Hi Hn. unfold percentage, truediv, pct.
  destruct (Z.eqb_spec n 0) as [E|_]; [lia|].
  destruct (quotient_rounded_bounds i n Hi Hn) as [Hq0 Hq1].
  rewrite (small_no_overflow _ Hq0) by lra.
  unfold fmul. change (inject_Z 100) with 100%Q.
  destruct (product_rounded_bounds _ Hq0 Hq1) as [Hp0 Hp1].
  rewrite (small_no_overflow _ Hp0 Hp1). simpl.
  apply Qle_bool_iff in Hp0. rewrite Hp0. reflexivity.
Qed.

Lemma pct_mono i j n : 0 <= i -> i <= j -> 0 < n -> pct i n <= pct j n.
Proof.
  intros Hi Hij Hn. unfold pct.
  assert (Hn0 : (0 < inject_Z n)%Q) by (rewrite <- (Zlt_Qlt 0); lia).
  assert (Hi0 : (0 <= inject_Z (i + 1) / inject_Z n)%Q).
  { apply Qle_shift_div_l; [exact Hn0|]. rewrite Qmult_0_l. rewrite <- (Zle_Qle 0). lia. }
  assert (Hq : (inject_Z (i + 1) / inject_Z n <= inject_Z (j + 1) / inject_Z n)%Q).
  { apply Qmult_le_compat_r; [rewrite <- Zle_Qle; lia|].
    apply Qlt_le_weak, Qinv_lt_0_compat, Hn0. }
  pose proof (RN_nonneg _ Hi0) as Hr0.
  pose proof (RN_le _ _ Hi0 Hq) as Hr.
  apply Qfloor_resp_le. apply RN_le; lra.
Qed.

Lemma pct_range i n : 0 <= i -> i + 1 <= n -> 0 <= pct i n <= 100.
Proof.
  intros Hi Hn. unfold pct.
  destruct (quotient_rounded_bounds i n Hi Hn) as [Hq0 Hq1].
  destruct (product_rounded_bounds _ Hq0 Hq1) as [Hp0 Hp1].
  split.
  - change 0 with (Qfloor 0). apply Qfloor_resp_le, Hp0.
  - change 100 with (Qfloor 100). apply Qfloor_resp_le, Hp1.
Qed.

Lemma pct_full n : 0 < n -> pct (n - 1) n = 100.
Proof.
  intros Hn. unfold pct. replace (n - 1 + 1) with n by ring.
  assert (Hn0 : (0 < inject_Z n)%Q) by (rewrite <- (Zlt_Qlt 0); lia).
  assert (E1 : (inject_Z n / inject_Z n == 1)%Q).
  { field. intros E. rewrite E in Hn0. discriminate. }
  assert (E2 : (RN (inject_Z n / inject_Z n) == 1)%Q).
  { eapply Qeq_trans; [|exact RN_1]. apply RN_comp; [rewrite E1; discriminate|exact E1]. }
  assert (E3 : (RN (RN (inject_Z n / inject_Z n) * 100) == 100)%Q).
  { eapply Qeq_trans; [|exact RN_100]. apply RN_comp; rewrite E2; [discriminate|reflexivity]. }
  rewrite E3. reflexivity.
Qed.

(** Below a full quotient the percentage stays under 100, as long as the
    count is within the integers binary64 holds exactly. *)
Lemma pct_below i n : 0 <= i -> i + 1 < n -> n <= 2 ^ 53 -> pct i n <= 99.
Proof.
  intros Hi Hlt Hn. unfold pct.
  assert (Hn0 : (0 < inject_Z n)%Q) by (rewrite <- (Zlt_Qlt 0); lia).
  destruct (ratio_bounds i n Hi ltac:(lia)) as [H0 _].
  set (u := (1 - (1 # 2 ^ 53))%Q).
  assert (Hu : (inject_Z (i + 1) / inject_Z n <= u)%Q).
  { apply Qle_shift_div_r; [exact Hn0|].
    apply Qle_trans with (inject_Z (n - 1)); [rewrite <- Zle_Qle; lia|].
    unfold u. unfold Z.sub. rewrite inject_Z_plus.
    assert (Hb : (inject_Z n <= inject_Z (2 ^ 53))%Q) by (rewrite <- Zle_Qle; exact Hn).
    change (inject_Z (2 ^ 53)) with (9007199254740992 # 1)%Q in Hb.
    change (inject_Z (- (1))) with (-1 # 1)%Q.
    change (2 ^ 53)%positive with 9007199254740992%positive.
    assert (Hk : ((1 # 9007199254740992) * inject_Z n <= 1)%Q).
    { unfold Qle in Hb |- *; simpl in Hb |- *. destruct n; simpl; lia. }
    lra. }
  assert (Hru : (RN u == u)%Q) by (vm_compute; reflexivity).
  assert (Hr : (RN (inject_Z (i + 1) / inject_Z n) <= u)%Q).
  { rewrite <- Hru. apply RN_le; [apply Qlt_le_weak, H0|exact Hu]. }
  pose proof (RN_nonneg _ (Qlt_le_weak _ _ H0)) as Hr0.
  assert (Hp : (RN (RN (inject_Z (i + 1) / inject_Z n) * 100) <= RN (u * 100))%Q).
  { apply RN_le; lra. }
  apply Qfloor_resp_le in Hp.
  replace (Qfloor (RN (u * 100))) with 99 in Hp by (vm_compute; reflexivity).
  exact Hp.
Qed.

(** *** Reading traces *)

Lemma segment_cmds_app a b : segment_cmds (a ++ b) = segment_cmds a ++ segment_cmds b.
Proof. apply flat_map_app. Qed.

Lemma executed_app a b : executed (a ++ b) = executed a ++ executed b.
Proof. unfold executed. rewrite segment_cmds_app. apply flat_map_app. Qed.

Lemma percentages_app a b : percentages (a ++ b) = percentages a ++ percentages b.
Proof. apply flat_map_app. Qed.

Lemma warned_app a b : warned (a ++ b) = warned a ++ warned b.
Proof. apply flat_map_app. Qed.

Lemma succeeded_app a b : succeeded (a ++ b) = succeeded a ++ succeeded b.
Proof. apply flat_map_app. Qed.

Lemma warnings_app a b : warnings (a ++ b) = warnings a ++ warnings b.
Proof. apply flat_map_app. Qed.

Lemma segment_of_fast_cmd f inp st d sf out :
  segment_of (fast_cmd f inp st d sf out) = Some (Int st, d).
Proof. reflexivity. Qed.

Lemma segment_of_precise_cmd f inp st d sf out :
  segment_of (precise_cmd f inp st d sf out) = Some (Int st, d).
Proof. reflexivity. Qed.

Lemma executed_segment_cmds tr :
  executed tr = flat_map (fun cmd => match segment_of cmd with Some p => [p] | None => [] end)
                         (segment_cmds tr).
Proof. reflexivity. Qed.

Lemma zrange_length i m : List.length (zrange i m) = m.
Proof. revert i. induction m as [|m IH]; intros i; simpl; [reflexivity|]. rewrite IH. reflexivity. Qed.

Lemma zrange_snoc i m : zrange i (S m) = zrange i m ++ [i + Z.of_nat m].
Proof.
  revert i. induction m as [|m IH]; intros i.
  - simpl. rewrite Z.add_0_r. reflexivity.
  - change (zrange i (S (S m))) with (i :: zrange (i + 1) (S m)).
    rewrite IH. simpl. do 3 f_equal. lia.
Qed.

Lemma zrange_nth i m k : (k < m)%nat -> nth_error (zrange i m) k = Some (i + Z.of_nat k).
Proof.
  revert i k. induction m as [|m IH]; intros i k Hk; [lia|].
  destruct k as [|k]; simpl.
  - rewrite Z.add_0_r. reflexivity.
  - rewrite IH by lia. f_equal. lia.
Qed.

Lemma zrange_In i m j : In j (zrange i m) <-> i <= j < i + Z.of_nat m.
Proof.
  revert i. induction m as [|m IH]; intros i; simpl.
  - split; [tauto|lia].
  - rewrite IH. lia.
Qed.

(** *** The segment plan *)

Lemma segment_length_none total seg st :
  segment_length total seg st = None <-> (total <= inject_Z st)%Q.
Proof.
  unfold segment_length.
  destruct (Qle_bool (total - inject_Z st) 0) eqn:E.
  - apply Qle_bool_iff in E. split; [intros _; lra|reflexivity].
  - split.
    + destruct (Qlt_bool _ _); discriminate.
    + intros H. assert (E' : Qle_bool (total - inject_Z st) 0 = true)
        by (apply Qle_bool_iff; lra). congruence.
Qed.

Lemma segment_length_some total seg st d :
  segment_length total seg st = Some d ->
  (inject_Z st < total)%Q /\
  ((total - inject_Z st < inject_Z seg)%Q /\ d = Float (total - inject_Z st)
   \/ (inject_Z seg <= total - inject_Z st)%Q /\ d = Int seg).
Proof.
  unfold segment_length, Qlt_bool.
  destruct (Qle_bool (total - inject_Z st) 0) eqn:E; [discriminate|].
  assert (H0 : (inject_Z st < total)%Q).
  { apply Qnot_le_lt. intros H. assert (Qle_bool (total - inject_Z st) 0 = true)
      by (apply Qle_bool_iff; lra). congruence. }
  destruct (Qle_bool (inject_Z seg) (total - inject_Z st)) eqn:E2; simpl; intros [= <-].
  - apply Qle_bool_iff in E2. split; [exact H0|]. right. split; [exact E2|reflexivity].
  - split; [exact H0|]. left. split; [|reflexivity].
    apply Qnot_le_lt. intros H. apply Qle_bool_iff in H. congruence.
Qed.

Lemma segment_length_continues total seg st d :
  segment_length total seg st = Some d -> Qle_bool total (inject_Z st) = false.
Proof.
  intros H. apply segment_length_some in H. destruct H as [H _].
  destruct (Qle_bool total (inject_Z st)) eqn:E; [|reflexivity].
  apply Qle_bool_iff in E. exfalso. lra.
Qed.

Lemma plan_shape total seg fuel i :
  plan total seg fuel i =
  map (fun j => (Int (j * seg), duration_at total seg j))
      (zrange i (List.length (plan total seg fuel i))).
Proof.
  revert i. induction fuel as [|fuel IH]; intros i; simpl; [reflexivity|].
  destruct (segment_length total seg (i * seg)) as [d|] eqn:E; simpl; [|reflexivity].
  rewrite <- IH. unfold duration_at. rewrite E. reflexivity.
Qed.

Lemma plan_length_le total seg fuel i : (List.length (plan total seg fuel i) <= fuel)%nat.
Proof.
  revert i. induction fuel as [|fuel IH]; intros i; simpl; [lia|].
  destruct (segment_length total seg (i * seg)); simpl; [|lia]. specialize (IH (i + 1)). lia.
Qed.

(** Every index of the plan starts before the end of the video. *)
Lemma plan_in_range total seg fuel i j :
  0 < seg -> i <= j < i + Z.of_nat (List.length (plan total seg fuel i)) ->
  (inject_Z (j * seg) < total)%Q.
Proof.
  intros Hseg. revert i. induction fuel as [|fuel IH]; intros i; simpl; [lia|].
  destruct (segment_length total seg (i * seg)) as [d|] eqn:E; simpl; [|lia].
  intros Hj. destruct (Z.eq_dec j i) as [->|Hne].
  - apply segment_length_some in E. tauto.
  - apply (IH (i + 1)). lia.
Qed.

(** The plan stops only where the video ends, when the range is long enough. *)
Lemma plan_stops total seg fuel i :
  (total <= inject_Z ((i + Z.of_nat fuel) * seg))%Q -> 0 < seg ->
  (total <= inject_Z ((i + Z.of_nat (List.length (plan total seg fuel i))) * seg))%Q.
Proof.
  intros Hfuel Hseg. revert i Hfuel. induction fuel as [|fuel IH]; intros i Hfuel.
  - exact Hfuel.
  - simpl. destruct (segment_length total seg (i * seg)) as [d|] eqn:E.
    + simpl List.length. replace (i + Z.of_nat (S (List.length (plan total seg fuel (i + 1)))))
        with (i + 1 + Z.of_nat (List.length (plan total seg fuel (i + 1)))) by lia.
      apply IH. replace (i + 1 + Z.of_nat fuel) with (i + Z.of_nat (S fuel)) by lia. exact Hfuel.
    + simpl. rewrite Z.add_0_r. apply segment_length_none in E. exact E.
Qed.

(** *** Arithmetic of the plan *)

Lemma inject_Z_succ_mult j seg :
  (inject_Z ((j + 1) * seg) == inject_Z (j * seg) + inject_Z seg)%Q.
Proof. rewrite <- inject_Z_plus. replace ((j + 1) * seg) with (j * seg + seg) by ring. reflexivity. Qed.

Lemma duration_at_full total seg j :
  0 < seg -> (inject_Z ((j + 1) * seg) <= total)%Q -> duration_at total seg j = Int seg.
Proof.
  intros Hseg H. rewrite inject_Z_succ_mult in H.
  assert (Hs : (0 < inject_Z seg)%Q) by (rewrite <- (Zlt_Qlt 0); exact Hseg).
  unfold duration_at.
  destruct (segment_length total seg (j * seg)) as [d|] eqn:E; [|reflexivity].
  apply segment_length_some in E. destruct E as [_ [[Hlt _]|[_ ->]]]; [|reflexivity].
  exfalso. lra.
Qed.


Lemma plan_reaches total seg fuel i j :
  0 < seg -> i <= j < i + Z.of_nat fuel -> (inject_Z (j * seg) < total)%Q ->
  j < i + Z.of_nat (List.length (plan total seg fuel i)).
Proof.
  intros Hseg. revert i. induction fuel as [|fuel IH]; intros i Hj Hlt; [lia|].
  simpl. destruct (segment_length total seg (i * seg)) as [d|] eqn:E.
  - simpl List.length. destruct (Z.eq_dec j i) as [->|Hne]; [lia|].
    specialize (IH (i + 1) ltac:(lia) Hlt). lia.
  - exfalso. apply segment_length_none in E.
    assert (Hle : (inject_Z (i * seg) <= inject_Z (j * seg))%Q)
      by (rewrite <- Zle_Qle; nia).
    lra.
Qed.


(** The count formula leaves room for every segment. *)
Lemma count_covers total seg :
  0 < seg -> (total < inject_Z ((Qfloor (total / inject_Z seg) + 1) * seg))%Q.
Proof.
  intros Hseg.
  assert (Hs : (0 < inject_Z seg)%Q) by (rewrite <- (Zlt_Qlt 0); exact Hseg).
  rewrite inject_Z_mult.
  assert (E : (total == total / inject_Z seg * inject_Z seg)%Q).
  { field. intros H. rewrite H in Hs. discriminate. }
  rewrite E at 1. apply Qmult_lt_r; [exact Hs|]. apply Qlt_floor.
Qed.

Lemma count_floor total seg :
  0 < seg -> (inject_Z (Qfloor (total / inject_Z seg) * seg) <= total)%Q.
Proof.
  intros Hseg.
  assert (Hs : (0 < inject_Z seg)%Q) by (rewrite <- (Zlt_Qlt 0); exact Hseg).
  rewrite inject_Z_mult.
  assert (E : (total == total / inject_Z seg * inject_Z seg)%Q).
  { field. intros H. rewrite H in Hs. discriminate. }
  rewrite E at 2. apply Qmult_le_r; [exact Hs|]. apply Qfloor_le.
Qed.

Lemma floor_of_multiple k seg :
  0 < seg -> Qfloor (inject_Z (k * seg) / inject_Z seg) = k.
Proof.
  intros Hseg.
  assert (E : (inject_Z (k * seg) / inject_Z seg == inject_Z k)%Q).
  { rewrite inject_Z_mult. field. intros H.
    assert (Hs : (0 < inject_Z seg)%Q) by (rewrite <- (Zlt_Qlt 0); exact Hseg).
    rewrite H in Hs. discriminate. }
  rewrite E. apply Qfloor_Z.
Qed.

Lemma is_multiple_dec total seg :
  0 < seg -> {is_multiple total seg} + {~ is_multiple total seg}.
Proof.
  intros Hseg.
  destruct (Qeq_dec total (inject_Z (Qfloor (total / inject_Z seg) * seg))) as [E|NE].
  - left. eexists. exact E.
  - right. intros [k Hk]. apply NE.
    assert (Ek : Qfloor (total / inject_Z seg) = k).
    { rewrite Hk. apply floor_of_multiple, Hseg. }
    rewrite Ek. exact Hk.
Qed.

(** *** One iteration of each loop *)

Section LoopFacts.

Variable rt : runtime.
Variable h : host.
Variable self : WorkerThread.
Variable l : locals.

Let seg := segment_duration self.
Let total := total_duration l.
Let n := num_segments l.

Lemma fast_loop_step fuel i d :
  segment_length total seg (i * seg) = Some d -> 0 <= i -> i + 1 <= n ->
  fast_loop rt h self l (S fuel) i =
  match encode h i with
  | Raised e => ([creating self l i; Spawn (fast_call rt self l i)], Raise e)
  | Exited rc out err =>
      let (tr, fl) := fast_loop rt h self l fuel (i + 1) in
      ([creating self l i; Spawn (fast_call rt self l i); fast_note i rc err;
        Emit (segment_progress (pct i n))] ++ tr, fl)
  end.
Proof.
  intros E Hi Hn. unfold creating, fast_call, fast_note, duration_at.
  fold seg total. rewrite E. simpl. fold seg total n. rewrite E.
  destruct (encode h i) as [e|rc out err]; simpl; [reflexivity|].
  rewrite (percentage_ok i n Hi Hn). rewrite (segment_length_continues _ _ _ _ E).
  destruct (rc =? 0)%Z; simpl; destruct (fast_loop rt h self l fuel (i + 1)); reflexivity.
Qed.

Lemma precise_loop_step fuel i d :
  segment_length total seg (i * seg) = Some d -> 0 <= i -> i + 1 <= n ->
  precise_loop rt h self l (S fuel) i =
  match encode h i with
  | Raised e => ([creating self l i; Spawn (precise_call rt self l i)], Raise e)
  | Exited rc out err =>
      if negb (rc =? 0)%Z
      then ([creating self l i; Spawn (precise_call rt self l i);
             Emit (error (segment_error (i + 1) err))], Return)
      else
        let (tr, fl) := precise_loop rt h self l fuel (i + 1) in
        ([creating self l i; Spawn (precise_call rt self l i);
          Emit (progress (segment_ready (i + 1)));
          Emit (segment_progress (pct i n))] ++ tr, fl)
  end.
Proof.
  intros E Hi Hn. unfold creating, precise_call, duration_at.
  fold seg total. rewrite E. simpl. fold seg total n. rewrite E.
  destruct (encode h i) as [e|rc out err]; simpl; [reflexivity|].
  rewrite (percentage_ok i n Hi Hn). rewrite (segment_length_continues _ _ _ _ E).
  destruct (rc =? 0)%Z; simpl; [|reflexivity].
  destruct (precise_loop rt h self l fuel (i + 1)); reflexivity.
Qed.

Lemma fast_loop_stop fuel i :
  segment_length total seg (i * seg) = None ->
  fast_loop rt h self l fuel i = ([], Next tt).
Proof. intros E. destruct fuel; simpl; [reflexivity|]. fold seg total. rewrite E. reflexivity. Qed.

Lemma precise_loop_stop fuel i :
  segment_length total seg (i * seg) = None ->
  precise_loop rt h self l fuel i = ([], Next tt).
Proof. intros E. destruct fuel; simpl; [reflexivity|]. fold seg total. rewrite E. reflexivity. Qed.


Lemma is_segment_fast_call i : is_segment_cmd (fast_call rt self l i) = true.
Proof. reflexivity. Qed.

Lemma is_segment_precise_call i : is_segment_cmd (precise_call rt self l i) = true.
Proof. reflexivity. Qed.

(** The trace of the fast loop, for any behaviour of the processes: the
    commands of [m] consecutive indices, [c] of them completed. *)
Lemma fast_loop_trace fuel : forall i, 0 <= i -> Z.of_nat fuel <= Z.max 0 (n - i) ->
  exists (m c : nat),
    (m <= List.length (plan total seg fuel i))%nat /\ (c <= m)%nat /\
    segment_cmds (fst (fast_loop rt h self l fuel i)) = map (fast_call rt self l) (zrange i m) /\
    percentages (fst (fast_loop rt h self l fuel i)) = map (fun j => pct j n) (zrange i c) /\
    warned (fst (fast_loop rt h self l fuel i))
      = map (fun j => j + 1) (filter (fun j => failed (encode h j)) (zrange i c)) /\
    succeeded (fst (fast_loop rt h self l fuel i))
      = map (fun j => j + 1) (filter (fun j => negb (failed (encode h j))) (zrange i c)) /\
    (forall j, In j (zrange i c) -> exits (encode h j)) /\
    match snd (fast_loop rt h self l fuel i) with
    | Next _ => c = m /\ m = List.length (plan total seg fuel i)
    | Return => False
    | Raise e => m = S c /\ encode h (i + Z.of_nat c) = Raised e
    end.
Proof.
  induction fuel as [|fuel IH]; intros i Hi Hn.
  - exists O, O. simpl. repeat split; auto; intros j [].
  - destruct (segment_length total seg (i * seg)) as [d|] eqn:E.
    + rewrite (fast_loop_step fuel i d E Hi ltac:(lia)).
      simpl plan. rewrite E.
      destruct (encode h i) as [e|rc out err] eqn:Enc.
      * exists 1%nat, O. simpl. rewrite Z.add_0_r.
        repeat split; auto; try lia; try (intros j []).
      * destruct (IH (i + 1) ltac:(lia) ltac:(lia)) as (m & c & Hm & Hcm & Hcmd & Hpct & Hw & Hs & Hex & Hfl).
        destruct (fast_loop rt h self l fuel (i + 1)) as [tr fl]. simpl fst in *. simpl snd in *.
        exists (S m), (S c). split; [simpl; lia|]. split; [lia|].
        split; [simpl; rewrite Hcmd; reflexivity|].
        split; [simpl; rewrite Hpct; reflexivity|].
        split.
        { simpl zrange. simpl filter. rewrite Enc. unfold fast_note. simpl failed.
          destruct (rc =? 0)%Z; simpl; rewrite Hw; reflexivity. }
        split.
        { simpl zrange. simpl filter. rewrite Enc. unfold fast_note. simpl failed.
          destruct (rc =? 0)%Z; simpl; rewrite Hs; reflexivity. }
        split.
        { intros j [<-|Hj]; [rewrite Enc; do 3 eexists; reflexivity|apply Hex, Hj]. }
        destruct fl; auto.
        -- simpl. destruct Hfl as [-> ->]. split; reflexivity.
        -- destruct Hfl as [-> Hr]. split; [reflexivity|].
           replace (i + Z.of_nat (S c)) with (i + 1 + Z.of_nat c) by lia. exact Hr.
    + rewrite (fast_loop_stop (S fuel) i E). simpl plan. rewrite E.
      exists O, O. simpl. repeat split; auto; intros j [].
Qed.

(** The trace of the precise loop, for any behaviour of the processes. *)
Lemma precise_loop_trace fuel : forall i, 0 <= i -> Z.of_nat fuel <= Z.max 0 (n - i) ->
  exists (m c : nat),
    (m <= List.length (plan total seg fuel i))%nat /\ (c <= m)%nat /\
    segment_cmds (fst (precise_loop rt h self l fuel i)) = map (precise_call rt self l) (zrange i m) /\
    percentages (fst (precise_loop rt h self l fuel i)) = map (fun j => pct j n) (zrange i c) /\
    warned (fst (precise_loop rt h self l fuel i)) = [] /\
    succeeded (fst (precise_loop rt h self l fuel i)) = map (fun j => j + 1) (zrange i c) /\
    (forall j, In j (zrange i c) -> exits_zero (encode h j)) /\
    match snd (precise_loop rt h self l fuel i) with
    | Next _ => c = m /\ m = List.length (plan total seg fuel i)
    | Return =>
        m = S c /\
        exists rc out err tr0,
          encode h (i + Z.of_nat c) = Exited rc out err /\ rc <> 0 /\
          fst (precise_loop rt h self l fuel i)
          = tr0 ++ [Spawn (precise_call rt self l (i + Z.of_nat c));
                    Emit (error (segment_error (i + Z.of_nat c + 1) err))]
    | Raise e => m = S c /\ encode h (i + Z.of_nat c) = Raised e
    end.
Proof.
  induction fuel as [|fuel IH]; intros i Hi Hn.
  - exists O, O. simpl. repeat split; auto; intros j [].
  - destruct (segment_length total seg (i * seg)) as [d|] eqn:E.
    + rewrite (precise_loop_step fuel i d E Hi ltac:(lia)).
      simpl plan. rewrite E.
      destruct (encode h i) as [e|rc out err] eqn:Enc.
      * exists 1%nat, O. simpl. rewrite Z.add_0_r.
        repeat split; auto; try lia; try (intros j []).
      * destruct (Z.eqb_spec rc 0) as [->|Hrc]; simpl negb; cbv iota.
        -- destruct (IH (i + 1) ltac:(lia) ltac:(lia)) as (m & c & Hm & Hcm & Hcmd & Hpct & Hw & Hs & Hex & Hfl).
           destruct (precise_loop rt h self l fuel (i + 1)) as [tr fl]. simpl fst in *. simpl snd in *.
           exists (S m), (S c). split; [simpl; lia|]. split; [lia|].
           split; [simpl; rewrite Hcmd; reflexivity|].
           split; [simpl; rewrite Hpct; reflexivity|].
           split; [simpl; exact Hw|].
           split; [simpl; rewrite Hs; reflexivity|].
           split.
           { intros j [<-|Hj]; [rewrite Enc; do 2 eexists; reflexivity|apply Hex, Hj]. }
           replace (i + Z.of_nat (S c)) with (i + 1 + Z.of_nat c) by lia.
           destruct fl.
           ++ simpl. destruct Hfl as [-> ->]. split; reflexivity.
           ++ destruct Hfl as [-> (rc & out' & err' & tr0 & He & Hne & Htr)].
              split; [reflexivity|]. exists rc, out', err'.
              eexists ([creating self l i; Spawn (precise_call rt self l i);
                        Emit (progress (segment_ready (i + 1)));
                        Emit (segment_progress (pct i n))] ++ tr0).
              split; [exact He|]. split; [exact Hne|].
              rewrite Htr. rewrite <- app_assoc. reflexivity.
           ++ destruct Hfl as [-> Hr]. split; [reflexivity|exact Hr].
        -- exists 1%nat, O. simpl. rewrite Z.add_0_r.
           repeat split; auto; try lia; try (intros j []).
           exists rc, out, err, [creating self l i]. repeat split; auto.
    + rewrite (precise_loop_stop (S fuel) i E). simpl plan. rewrite E.
      exists O, O. simpl. repeat split; auto; intros j [].
Qed.

End LoopFacts.

(** *** The part of [run] before the loops *)

Lemma int_of_float_Z z : int_of_float (Finite (inject_Z z)) = inr z.
Proof.
  unfold int_of_float. destruct (Qle_bool 0 (inject_Z z)); f_equal;
    [apply Qfloor_Z|apply Qceiling_Z].
Qed.

Lemma count_segments_finite q seg n :
  count_segments (Finite q) seg = inr n ->
  seg <> 0 /\ n = Qfloor (q / inject_Z seg) + 1.
Proof.
  unfold count_segments, floordiv. destruct (Z.eqb_spec seg 0) as [|Hne]; [discriminate|].
  rewrite int_of_float_Z. intros [= <-]. split; [exact Hne|reflexivity].
Qed.

Lemma prepare_inv rt h self pre l :
  prepare rt h self = (pre, Next l) ->
  (exists p, ffmpeg_path h = Some p /\ p <> EmptyString /\ ffmpeg l = p) /\
  filename l = fst (splitext rt (basename rt (input_path self))) /\
  ext l = snd (splitext rt (input_path self)) /\
  (exists out err, probe_duration h = Exited 0 out err /\
                   float_of_str rt (strip out) = Some (Finite (total_duration l))) /\
  count_segments (Finite (total_duration l)) (segment_duration self) = inr (num_segments l) /\
  run_mode l = (if escalated self then "precise" else mode self) /\
  (escalated self = true -> In (Emit (progress switching_to_precise)) pre) /\
  segment_cmds pre = [] /\ percentages pre = [] /\ warned pre = [] /\
  succeeded pre = [] /\ warnings pre = [] /\
  (forall t, ~ In (Emit (error t)) pre) /\ (forall ok t, ~ In (Emit (finished ok t)) pre).
Proof.
  unfold prepare, plan_scaling, escalated.
  destruct (ffmpeg_path h) as [[|c p]|]; [discriminate| |discriminate].
  destruct (probe_duration h) as [e|rc out err]; [discriminate|].
  simpl. destruct (Z.eqb_spec rc 0) as [->|Hrc]; [|discriminate]. simpl.
  destruct (float_of_str rt (strip out)) as [total|] eqn:Efloat; [|discriminate]. simpl.
  destruct (probe_resolution h) as [e|rrc rout rerr]; [discriminate|]. simpl.
  destruct (calculate_target_resolution _ (resolution self)) as [e|target]; [discriminate|]. simpl.
  destruct (count_segments total (segment_duration self)) as [e|cnt] eqn:Ecount;
    [destruct target as [[tw th]|];
       [destruct (negb (tw =? 0)%Z && negb (th =? 0)%Z)%bool|]; discriminate|].
  destruct total as [q| |];
    [|destruct target as [[tw th]|];
        [destruct (negb (tw =? 0)%Z && negb (th =? 0)%Z)%bool|]; discriminate ..].
  destruct target as [[tw th]|];
    [destruct (negb (tw =? 0)%Z && negb (th =? 0)%Z)%bool|];
    destruct (resolution self =? "original")%string;
    destruct (scale_crop self);
    destruct (mode self =? "fast")%string;
    simpl; intros H.
  all: injection H as <- <-; simpl;
  repeat match goal with
         | |- _ /\ _ => split
         end;
  try reflexivity; try assumption; try discriminate;
  try (eexists; split; [reflexivity|split; [discriminate|reflexivity]]);
  try (do 2 eexists; split; [reflexivity|eassumption]);
  try (intros; simpl; tauto);
  try (intros ? HIn; simpl in HIn; intuition discriminate);
  try (intros ? ? HIn; simpl in HIn; intuition discriminate).
Qed.

(** *** The whole run *)

Lemma run_after_prepare rt h self pre l :
  prepare rt h self = (pre, Next l) ->
  run rt h self = pre ++ fst (split rt h self l) ++ run_tail self (snd (split rt h self l)).
Proof.
  intros H. unfold run, run_body. rewrite H. simpl.
  destruct (split rt h self l) as [tr [[]| |e]]; simpl; try reflexivity.
  - rewrite app_nil_r. reflexivity.
  - rewrite <- app_assoc. reflexivity.
Qed.

Lemma split_fast rt h self l :
  run_mode l = "fast" ->
  split rt h self l =
  (Emit (progress fast_mode_banner)
     :: fst (fast_loop rt h self l (Z.to_nat (num_segments l)) 0),
   snd (fast_loop rt h self l (Z.to_nat (num_segments l)) 0)).
Proof.
  intros H. unfold split. rewrite H. simpl.
  destruct (fast_loop rt h self l (Z.to_nat (num_segments l)) 0) as [tr fl]. reflexivity.
Qed.

Lemma split_precise rt h self l :
  run_mode l <> "fast" ->
  split rt h self l =
  (Emit (progress precise_mode_banner)
     :: fst (precise_loop rt h self l (Z.to_nat (num_segments l)) 0),
   snd (precise_loop rt h self l (Z.to_nat (num_segments l)) 0)).
Proof.
  intros H. unfold split. apply String.eqb_neq in H. rewrite H. simpl.
  destruct (precise_loop rt h self l (Z.to_nat (num_segments l)) 0) as [tr fl]. reflexivity.
Qed.

Lemma executed_of_calls (call : Z -> list arg) total seg js :
  (forall j, segment_of (call j) = Some (Int (j * seg), duration_at total seg j)) ->
  forall tr, segment_cmds tr = map call js ->
  executed tr = map (fun j => (Int (j * seg), duration_at total seg j)) js.
Proof.
  intros Hcall tr H. rewrite executed_segment_cmds, H. clear H.
  induction js as [|j js IH]; simpl; [reflexivity|].
  rewrite Hcall. simpl. f_equal. exact IH.
Qed.

Lemma terminal_of_snoc tr e : terminal_of (tr ++ [e]) = terminal_of [e].
Proof. unfold terminal_of. rewrite last_last. reflexivity. Qed.

(** What every run that reaches the loops looks like: [m] segments were
    attempted, the first [c] of them completed. *)
Lemma run_summary rt h self pre l :
  prepare rt h self = (pre, Next l) ->
  let seg := segment_duration self in
  let total := total_duration l in
  let n := num_segments l in
  exists (m c : nat),
    (m <= List.length (plan total seg (Z.to_nat n) 0))%nat /\ (c <= m)%nat /\
    segment_cmds (run rt h self)
      = map (if (run_mode l =? "fast")%string then fast_call rt self l
             else precise_call rt self l) (zrange 0 m) /\
    executed (run rt h self)
      = map (fun j => (Int (j * seg), duration_at total seg j)) (zrange 0 m) /\
    percentages (run rt h self) = map (fun j => pct j n) (zrange 0 c) /\
    (List.length (succeeded (run rt h self)) + List.length (warned (run rt h self)) = c)%nat /\
    (terminal_of (run rt h self) = Some Completed ->
     c = m /\ m = List.length (plan total seg (Z.to_nat n) 0)).
Proof.
  intros Hp seg total n.
  destruct (prepare_inv rt h self pre l Hp)
    as (_ & _ & _ & _ & _ & _ & _ & Hcmds & Hpct & Hw & Hs & _ & _ & _).
  rewrite (run_after_prepare rt h self pre l Hp).
  destruct (String.eqb_spec (run_mode l) "fast") as [Hfast|Hprec].
  - rewrite (split_fast rt h self l Hfast). cbn [fst snd].
    destruct (fast_loop_trace rt h self l (Z.to_nat n) 0 ltac:(lia) ltac:(lia))
      as (m & c & Hm & Hcm & Hc & Hpc & Hwn & Hsc & _ & Hfl).
    fold n in Hc, Hpc, Hwn, Hsc, Hfl |- *.
    set (tr := fst (fast_loop rt h self l (Z.to_nat n) 0)) in *.
    set (fl := snd (fast_loop rt h self l (Z.to_nat n) 0)) in *.
    assert (Hcmd' : segment_cmds (pre ++ (Emit (progress fast_mode_banner) :: tr) ++ run_tail self fl)
                    = map (fast_call rt self l) (zrange 0 m)).
    { rewrite !segment_cmds_app, Hcmds. simpl. rewrite Hc.
      destruct fl as [[]| |e]; simpl; apply app_nil_r. }
    exists m, c. split; [exact Hm|]. split; [exact Hcm|]. split; [exact Hcmd'|].
    split; [apply (executed_of_calls (fast_call rt self l)); [reflexivity|exact Hcmd']|].
    split.
    { rewrite !percentages_app, Hpct. simpl. rewrite Hpc.
      destruct fl as [[]| |e]; simpl; apply app_nil_r. }
    split.
    { rewrite !succeeded_app, !warned_app, Hs, Hw. simpl.
      replace (succeeded (run_tail self fl)) with (@nil Z) by (destruct fl as [[]| |e]; reflexivity).
      replace (warned (run_tail self fl)) with (@nil Z) by (destruct fl as [[]| |e]; reflexivity).
      rewrite !app_nil_r, Hwn, Hsc, !length_map.
      rewrite <- (zrange_length 0 c) at 3.
      generalize (zrange 0 c). intros js. induction js as [|j js IH]; simpl; [reflexivity|].
      destruct (failed (encode h j)); simpl; lia. }
    intros Hterm. destruct fl as [[]| |e].
    + tauto.
    + destruct Hfl.
    + exfalso. simpl run_tail in Hterm. rewrite app_assoc, terminal_of_snoc in Hterm. discriminate.
  - rewrite (split_precise rt h self l Hprec). cbn [fst snd].
    destruct (precise_loop_trace rt h self l (Z.to_nat n) 0 ltac:(lia) ltac:(lia))
      as (m & c & Hm & Hcm & Hc & Hpc & Hwn & Hsc & _ & Hfl).
    fold n in Hc, Hpc, Hwn, Hsc, Hfl |- *.
    set (tr := fst (precise_loop rt h self l (Z.to_nat n) 0)) in *.
    set (fl := snd (precise_loop rt h self l (Z.to_nat n) 0)) in *.
    assert (Hcmd' : segment_cmds (pre ++ (Emit (progress precise_mode_banner) :: tr) ++ run_tail self fl)
                    = map (precise_call rt self l) (zrange 0 m)).
    { rewrite !segment_cmds_app, Hcmds. simpl. rewrite Hc.
      destruct fl as [[]| |e]; simpl; apply app_nil_r. }
    exists m, c. split; [exact Hm|]. split; [exact Hcm|]. split; [exact Hcmd'|].
    split; [apply (executed_of_calls (precise_call rt self l)); [reflexivity|exact Hcmd']|].
    split.
    { rewrite !percentages_app, Hpct. simpl. rewrite Hpc.
      destruct fl as [[]| |e]; simpl; apply app_nil_r. }
    split.
    { rewrite !succeeded_app, !warned_app, Hs, Hw. simpl.
      replace (succeeded (run_tail self fl)) with (@nil Z) by (destruct fl as [[]| |e]; reflexivity).
      replace (warned (run_tail self fl)) with (@nil Z) by (destruct fl as [[]| |e]; reflexivity).
      rewrite !app_nil_r, Hwn, Hsc, !length_map, zrange_length. simpl. lia. }
    intros Hterm. destruct fl as [[]| |e].
    + tauto.
    + exfalso. destruct Hfl as (_ & rc & out & err & tr0 & _ & _ & Htr).
      assert (Hend : pre ++ (Emit (progress precise_mode_banner) :: tr) ++ run_tail self Return
                     = (pre ++ Emit (progress precise_mode_banner) :: tr0
                            ++ [Spawn (precise_call rt self l (0 + Z.of_nat c))])
                       ++ [Emit (error (segment_error (0 + Z.of_nat c + 1) err))]).
      { rewrite Htr. simpl. rewrite app_nil_r, <- !app_assoc. simpl.
        rewrite <- app_assoc. reflexivity. }
      rewrite Hend, terminal_of_snoc in Hterm. discriminate.
    + exfalso. simpl run_tail in Hterm. rewrite app_assoc, terminal_of_snoc in Hterm. discriminate.
Qed.

(* ================================================================== *)
(** ** The claims *)

Lemma prepared_count rt h self pre l :
  prepare rt h self = (pre, Next l) ->
  segment_duration self <> 0 /\
  num_segments l = Qfloor (total_duration l / inject_Z (segment_duration self)) + 1.
Proof.
  intros Hp. destruct (prepare_inv rt h self pre l Hp) as (_ & _ & _ & _ & Hc & _).
  apply count_segments_finite in Hc. exact Hc.
Qed.

Lemma nth_error_plan_map total seg m i s d :
  nth_error (map (fun j => (Int (j * seg), duration_at total seg j)) (zrange 0 m)) i = Some (s, d) ->
  (i < m)%nat /\ s = Int (Z.of_nat i * seg) /\ d = duration_at total seg (Z.of_nat i).
Proof.
  intros H.
  assert (Hi : (i < m)%nat).
  { assert (Hs : nth_error (map (fun j => (Int (j * seg), duration_at total seg j)) (zrange 0 m)) i <> None)
      by (rewrite H; discriminate).
    apply nth_error_Some in Hs. rewrite length_map, zrange_length in Hs. exact Hs. }
  rewrite nth_error_map, (zrange_nth 0 m i Hi) in H. simpl in H.
  injection H as <- <-. auto.
Qed.



(** C7 as stated fails: for a 125-second video cut every 60 seconds the
    second percentage emitted is 66, while round(2/3 * 100) is 67. *)
Lemma C7_counterexample :
  let tr := run sample_runtime (sample_host "125" "1920x1080" none_failing)
                (sample_worker 60 "fast" "original") in
  percentages tr = [33; 66; 100] /\
  map (fun i => spec_round_percent i 3) (zrange 0 3) = [33; 67; 100] /\
  nth 1 (percentages tr) 0 <> spec_round_percent 1 3.
Proof. vm_compute. repeat split; discriminate. Qed.

(** C7, amended. The run emits one percentage per completed segment (ready or
    warned), in index order; the value for index [i] is [pct i n], the integer
    part of the binary64 value of [(i + 1) / n * 100] with
    [n = floor(total / segment) + 1], which is what [int(...)] returns; and
    the emitted values never decrease. *)
Theorem C7_percentage_truncated rt h self pre l :
  prepare rt h self = (pre, Next l) ->
  let n := num_segments l in
  let ps := percentages (run rt h self) in
  n = Qfloor (total_duration l / inject_Z (segment_duration self)) + 1 /\
  ps = map (fun i => pct i n)
           (zrange 0 (List.length (succeeded (run rt h self))
                      + List.length (warned (run rt h self)))) /\
  (forall i p, nth_error ps i = Some p -> percentage (Z.of_nat i) n = inr p) /\
  (forall a b pa pb, (a <= b)%nat ->
     nth_error ps a = Some pa -> nth_error ps b = Some pb -> pa <= pb).
Proof.
  intros Hp n ps.
  destruct (prepared_count rt h self pre l Hp) as [_ Hn].
  destruct (run_summary rt h self pre l Hp) as (m & c & Hm & Hcm & _ & _ & Hpc & Hcount & _).
  fold n in Hpc, Hm. fold ps in Hpc.
  pose proof (plan_length_le (total_duration l) (segment_duration self) (Z.to_nat n) 0) as HK.
  assert (Hnth : forall i p, nth_error ps i = Some p ->
                 (i < c)%nat /\ p = pct (Z.of_nat i) n).
  { intros i p H. rewrite Hpc in H.
    assert (Hi : (i < c)%nat).
    { assert (Hs : nth_error (map (fun j => pct j n) (zrange 0 c)) i <> None)
        by (rewrite H; discriminate).
      apply nth_error_Some in Hs. rewrite length_map, zrange_length in Hs. exact Hs. }
    rewrite nth_error_map, (zrange_nth 0 c i Hi) in H. simpl in H.
    injection H as <-. auto. }
  split; [exact Hn|]. split; [rewrite Hcount; exact Hpc|]. split.
  - intros i p H. destruct (Hnth i p H) as [Hi ->]. apply percentage_ok; lia.
  - intros a b pa pb Hab Ha Hb.
    destruct (Hnth a pa Ha) as [Hac ->]. destruct (Hnth b pb Hb) as [Hbc ->].
    apply pct_mono; lia.
Qed.

(** C10. For a positive total duration and a positive segment length (the
    segment count within the integers binary64 holds exactly), a run that
    completes emits at least one percentage, and the last one is 100 exactly
    when the total is not a multiple of the segment length; when it is a
    multiple the last percentage is below 100. *)
Theorem C10_final_percentage rt h self pre l :
  prepare rt h self = (pre, Next l) ->
  (0 < total_duration l)%Q ->
  0 < segment_duration self ->
  num_segments l <= 2 ^ 53 ->
  terminal_of (run rt h self) = Some Completed ->
  let ps := percentages (run rt h self) in
  let p := last ps 0 in
  ps <> [] /\
  (p = 100 <-> ~ is_multiple (total_duration l) (segment_duration self)) /\
  (is_multiple (total_duration l) (segment_duration self) -> p < 100).
Proof.
  intros Hp Htotal Hseg Hbound Hc ps p.
  set (seg := segment_duration self) in *. set (total := total_duration l) in *.
  set (n := num_segments l) in *.
  destruct (prepared_count rt h self pre l Hp) as [_ Hn]. fold seg total n in Hn.
  destruct (run_summary rt h self pre l Hp) as (m & c & Hm & _ & _ & _ & Hpc & _ & Hterm).
  fold seg total n in Hm, Hpc, Hterm. fold ps in Hpc.
  destruct (Hterm Hc) as [Hcm HmK].
  pose proof (plan_length_le total seg (Z.to_nat n) 0) as HK.
  assert (Hf : 0 <= Qfloor (total / inject_Z seg)).
  { change 0 with (Qfloor 0). apply Qfloor_resp_le.
    apply Qle_shift_div_l; [rewrite <- (Zlt_Qlt 0); exact Hseg|].
    rewrite Qmult_0_l. apply Qlt_le_weak. exact Htotal. }
  assert (Hm1 : (1 <= m)%nat).
  { assert (H0 : 0 < 0 + Z.of_nat (List.length (plan total seg (Z.to_nat n) 0))).
    { apply plan_reaches; [exact Hseg|lia|exact Htotal]. }
    lia. }
  assert (Hlast : p = pct (Z.of_nat m - 1) n).
  { unfold p. rewrite Hpc, Hcm. destruct m as [|m']; [lia|].
    rewrite zrange_snoc, map_app. simpl map. rewrite last_last. f_equal. lia. }
  assert (Hstop : (total <= inject_Z (Z.of_nat m * seg))%Q).
  { rewrite HmK. apply (plan_stops total seg (Z.to_nat n) 0); [|exact Hseg].
    rewrite Z.add_0_l, Z2Nat.id by lia. rewrite Hn.
    apply Qlt_le_weak, count_covers, Hseg. }
  assert (Hin : forall j, 0 <= j < Z.of_nat m -> (inject_Z (j * seg) < total)%Q).
  { intros j Hj. apply (plan_in_range total seg (Z.to_nat n) 0 j Hseg). lia. }
  assert (Hmult : is_multiple total seg -> p <= 99).
  { intros [k Hk]. rewrite Hlast.
    assert (Hnk : n = k + 1) by (rewrite Hn, Hk, floor_of_multiple by exact Hseg; reflexivity).
    assert (Hmk : Z.of_nat m = k).
    { rewrite Hk in Hstop. rewrite <- Zle_Qle in Hstop.
      assert (Z.of_nat m <= k).
      { destruct (Z_le_gt_dec (Z.of_nat m) k) as [|Hgt]; [assumption|].
        specialize (Hin k ltac:(lia)). rewrite Hk in Hin. exfalso. lra. }
      nia. }
    apply pct_below; lia. }
  assert (Hnot : ~ is_multiple total seg -> p = 100).
  { intros Hnm. rewrite Hlast.
    assert (Hlt : (inject_Z ((n - 1) * seg) < total)%Q).
    { pose proof (count_floor total seg Hseg) as Hle.
      replace (n - 1) with (Qfloor (total / inject_Z seg)) by lia.
      apply Qle_lteq in Hle. destruct Hle as [Hlt|Heq]; [exact Hlt|].
      exfalso. apply Hnm. eexists. symmetry. exact Heq. }
    assert (Hreach : n - 1 < 0 + Z.of_nat (List.length (plan total seg (Z.to_nat n) 0))).
    { apply plan_reaches; [exact Hseg|lia|exact Hlt]. }
    replace (Z.of_nat m - 1) with (n - 1) by lia.
    apply pct_full. lia. }
  split; [|split].
  - rewrite Hpc, Hcm. destruct m; [lia|]. discriminate.
  - split.
    + intros H100 Hm'. specialize (Hmult Hm'). lia.
    + exact Hnot.
  - intros Hm'. specialize (Hmult Hm'). lia.
Qed.

Lemma not_escalated_original self :
  resolution self = "original" -> escalated self = false.
Proof. intros H. unfold escalated. rewrite H. reflexivity. Qed.

(** C5. In fast mode (a fast request with the original resolution), whatever
    the exit statuses of the ffmpeg processes, every planned segment is
    attempted, a warning line is emitted for exactly the segments whose
    process exited non-zero and a ready line for the others, and the run ends
    with the [finished] signal. *)
Theorem C5_fast_failure_is_warning rt h self pre l :
  prepare rt h self = (pre, Next l) ->
  mode self = "fast" ->
  resolution self = "original" ->
  (forall j, exits (encode h j)) ->
  let segs := plan (total_duration l) (segment_duration self) (Z.to_nat (num_segments l)) 0 in
  let indices := zrange 0 (List.length segs) in
  executed (run rt h self) = segs /\
  warned (run rt h self)
    = map (fun j => j + 1) (filter (fun j => failed (encode h j)) indices) /\
  succeeded (run rt h self)
    = map (fun j => j + 1) (filter (fun j => negb (failed (encode h j))) indices) /\
  terminal_of (run rt h self) = Some Completed.
Proof.
  intros Hp Hmode Hres Hexit segs indices.
  destruct (prepare_inv rt h self pre l Hp)
    as (_ & _ & _ & _ & _ & Hrm & _ & Hcmds & _ & Hw & Hs & _ & _ & _).
  rewrite (not_escalated_original self Hres), Hmode in Hrm.
  rewrite (run_after_prepare rt h self pre l Hp), (split_fast rt h self l Hrm). cbn [fst snd].
  destruct (fast_loop_trace rt h self l (Z.to_nat (num_segments l)) 0 ltac:(lia) ltac:(lia))
    as (m & c & Hm & Hcm & Hc & _ & Hwn & Hsc & _ & Hfl).
  set (tr := fst (fast_loop rt h self l (Z.to_nat (num_segments l)) 0)) in *.
  destruct (snd (fast_loop rt h self l (Z.to_nat (num_segments l)) 0)) as [[]| |e].
  - destruct Hfl as [-> ->]. fold segs in Hwn, Hsc, Hc. fold indices in Hwn, Hsc, Hc.
    simpl run_tail. split; [|split; [|split]].
    + unfold segs. rewrite plan_shape. fold segs. fold indices.
      apply (executed_of_calls (fast_call rt self l)); [reflexivity|].
      rewrite !segment_cmds_app, Hcmds. simpl. rewrite Hc. apply app_nil_r.
    + rewrite !warned_app, Hw. simpl. rewrite Hwn. apply app_nil_r.
    + rewrite !succeeded_app, Hs. simpl. rewrite Hsc. apply app_nil_r.
    + rewrite app_assoc, terminal_of_snoc. reflexivity.
  - destruct Hfl.
  - exfalso. destruct Hfl as [_ Hr]. destruct (Hexit (0 + Z.of_nat c)) as (rc & out & err & He).
    congruence.
Qed.

Lemma precise_run_mode rt h self pre l :
  prepare rt h self = (pre, Next l) ->
  mode self <> "fast" \/ resolution self <> "original" ->
  run_mode l <> "fast".
Proof.
  intros Hp Hor.
  destruct (prepare_inv rt h self pre l Hp) as (_ & _ & _ & _ & _ & Hrm & _).
  rewrite Hrm. unfold escalated.
  destruct (String.eqb_spec (mode self) "fast") as [Hm|Hm];
    destruct (String.eqb_spec (resolution self) "original") as [Hr|Hr]; simpl;
    try discriminate; try exact Hm. tauto.
Qed.

Lemma index_within_count total seg k :
  0 < seg -> (inject_Z (k * seg) < total)%Q -> k < Qfloor (total / inject_Z seg) + 1.
Proof.
  intros Hseg Hk.
  assert (Hs : (0 < inject_Z seg)%Q) by (rewrite <- (Zlt_Qlt 0); exact Hseg).
  assert (H : (inject_Z k <= total / inject_Z seg)%Q).
  { apply Qle_shift_div_l; [exact Hs|]. rewrite <- inject_Z_mult. apply Qlt_le_weak, Hk. }
  apply Qfloor_resp_le in H. rewrite Qfloor_Z in H. lia.
Qed.

(** C6. In precise mode, when the process of segment [k] is the first to exit
    non-zero, the run ends right after that process with the error signal for
    segment [k]: the commands spawned are those of the indices 0..k, the
    segments before [k] are reported ready, and nothing follows the error. *)
Theorem C6_precise_failure_aborts rt h self pre l k rc out err :
  prepare rt h self = (pre, Next l) ->
  mode self <> "fast" \/ resolution self <> "original" ->
  0 < segment_duration self ->
  0 <= k ->
  (inject_Z (k * segment_duration self) < total_duration l)%Q ->
  (forall j, 0 <= j < k -> exits_zero (encode h j)) ->
  encode h k = Exited rc out err ->
  rc <> 0 ->
  terminal_of (run rt h self) = Some (Aborted (segment_error (k + 1) err)) /\
  (exists before,
     run rt h self = before ++ [Spawn (precise_call rt self l k);
                                Emit (error (segment_error (k + 1) err))]) /\
  segment_cmds (run rt h self) = map (precise_call rt self l) (zrange 0 (S (Z.to_nat k))) /\
  succeeded (run rt h self) = map (fun j => j + 1) (zrange 0 (Z.to_nat k)) /\
  percentages (run rt h self) = map (fun j => pct j (num_segments l)) (zrange 0 (Z.to_nat k)).
Proof.
  intros Hp Hmode Hseg Hk Hlt Hok Hfail Hrc.
  pose proof (precise_run_mode rt h self pre l Hp Hmode) as Hrm.
  destruct (prepared_count rt h self pre l Hp) as [_ Hn].
  destruct (prepare_inv rt h self pre l Hp)
    as (_ & _ & _ & _ & _ & _ & _ & Hcmds & Hpct & _ & Hs & _ & _ & _).
  pose proof (index_within_count _ _ k Hseg Hlt) as Hkn. rewrite <- Hn in Hkn.
  rewrite (run_after_prepare rt h self pre l Hp), (split_precise rt h self l Hrm). cbn [fst snd].
  destruct (precise_loop_trace rt h self l (Z.to_nat (num_segments l)) 0 ltac:(lia) ltac:(lia))
    as (m & c & Hm & Hcm & Hc & Hpc & _ & Hsc & Hzero & Hfl).
  assert (Hreach : k < 0 + Z.of_nat (List.length
            (plan (total_duration l) (segment_duration self) (Z.to_nat (num_segments l)) 0))).
  { apply plan_reaches; [exact Hseg|lia|exact Hlt]. }
  assert (Hnotin : ~ In k (zrange 0 c)).
  { intros Hin. destruct (Hzero k Hin) as (o & e & He). congruence. }
  rewrite zrange_In in Hnotin.
  set (tr := fst (precise_loop rt h self l (Z.to_nat (num_segments l)) 0)) in *.
  destruct (snd (precise_loop rt h self l (Z.to_nat (num_segments l)) 0)) as [[]| |e].
  - exfalso. destruct Hfl as [-> ->]. lia.
  - destruct Hfl as (-> & rc' & out' & err' & tr0 & He & Hne & Htr).
    assert (Hck : 0 + Z.of_nat c = k).
    { destruct (Z.lt_trichotomy (0 + Z.of_nat c) k) as [Hl|[He'|Hg]]; [|exact He'|lia].
      exfalso. destruct (Hok (0 + Z.of_nat c) ltac:(lia)) as (o & e & He''). congruence. }
    rewrite Hck in He, Htr. rewrite Hfail in He. injection He as <- <- <-.
    assert (Hc' : c = Z.to_nat k) by lia. subst c.
    simpl run_tail. rewrite app_nil_r.
    assert (Hend : pre ++ Emit (progress precise_mode_banner) :: tr
                   = (pre ++ Emit (progress precise_mode_banner) :: tr0
                          ++ [Spawn (precise_call rt self l k)])
                     ++ [Emit (error (segment_error (k + 1) err))]).
    { rewrite Htr, <- !app_assoc. simpl. rewrite <- app_assoc. reflexivity. }
    split; [rewrite Hend, terminal_of_snoc; reflexivity|].
    split.
    { exists (pre ++ Emit (progress precise_mode_banner) :: tr0).
      rewrite Htr, <- app_assoc. reflexivity. }
    split; [rewrite segment_cmds_app, Hcmds; simpl; exact Hc|].
    split; [rewrite succeeded_app, Hs; simpl; exact Hsc|].
    rewrite percentages_app, Hpct. simpl. exact Hpc.
  - exfalso. destruct Hfl as [-> Hr].
    destruct (Z.lt_trichotomy (0 + Z.of_nat c) k) as [Hl|[He'|Hg]]; [| |lia].
    + destruct (Hok (0 + Z.of_nat c) ltac:(lia)) as (o & e' & He''). congruence.
    + rewrite He' in Hr. congruence.
Qed.

(** Nothing before the loops spawns a segment command, however far the
    preparation gets. *)
Lemma prepare_spawns_no_segment rt h self :
  segment_cmds (fst (prepare rt h self)) = [].
Proof.
  unfold prepare, plan_scaling.
  destruct (ffmpeg_path h) as [[|c p]|]; try reflexivity.
  destruct (probe_duration h) as [e|rc out err]; try reflexivity.
  simpl. destruct (rc =? 0)%Z; try reflexivity. simpl.
  destruct (float_of_str rt (strip out)) as [total|]; try reflexivity. simpl.
  destruct (probe_resolution h) as [e|rrc rout rerr]; try reflexivity. simpl.
  destruct (calculate_target_resolution _ (resolution self)) as [e|target]; try reflexivity.
  simpl.
  destruct (count_segments total (segment_duration self)) as [e|cnt];
    destruct total as [q| |];
    (destruct target as [[tw th]|];
     [destruct (negb (tw =? 0)%Z && negb (th =? 0)%Z)%bool|]);
    try reflexivity;
    destruct (resolution self =? "original")%string;
    destruct (scale_crop self);
    destruct (mode self =? "fast")%string; reflexivity.
Qed.

Lemma run_without_loops rt h self pre fl :
  prepare rt h self = (pre, fl) ->
  (forall l, fl <> Next l) ->
  segment_cmds (run rt h self) = [].
Proof.
  intros Hp Hfl. pose proof (prepare_spawns_no_segment rt h self) as Hq.
  rewrite Hp in Hq. simpl in Hq.
  unfold run, run_body. rewrite Hp. destruct fl as [l| |e]; simpl.
  - exfalso. apply (Hfl l). reflexivity.
  - exact Hq.
  - rewrite segment_cmds_app, Hq. reflexivity.
Qed.

Lemma precise_is_not_fast rt self l i f inp st d sf o :
  precise_call rt self l i <> fast_cmd f inp st d sf o.
Proof. unfold precise_call, precise_cmd, fast_cmd. simpl. intros H. discriminate H. Qed.

(** C4. When fast mode is requested together with a resolution other than
    the original, every segment command of the run is a precise (re-encoding)
    command and none is a stream-copy command; the preparation ends with the
    mode set to precise and has emitted the switch notice; and the notice
    precedes the first segment command. *)
Theorem C4_fast_request_escalates rt h self :
  mode self = "fast" ->
  resolution self <> "original" ->
  let tr := run rt h self in
  (forall cmd, In cmd (segment_cmds tr) ->
     (exists l i, cmd = precise_call rt self l i) /\
     (forall f inp st d sf o, cmd <> fast_cmd f inp st d sf o)) /\
  (forall pre l, prepare rt h self = (pre, Next l) ->
     run_mode l = "precise" /\ In (Emit (progress switching_to_precise)) pre) /\
  (segment_cmds tr <> [] ->
   exists before after,
     tr = before ++ Emit (progress switching_to_precise) :: after /\
     segment_cmds before = []).
Proof.
  intros Hmode Hres tr.
  assert (Hesc : escalated self = true).
  { unfold escalated. rewrite Hmode. apply String.eqb_neq in Hres. rewrite Hres. reflexivity. }
  assert (Hprep : forall pre l, prepare rt h self = (pre, Next l) ->
            run_mode l = "precise" /\ In (Emit (progress switching_to_precise)) pre).
  { intros pre l Hp.
    destruct (prepare_inv rt h self pre l Hp) as (_ & _ & _ & _ & _ & Hrm & Hin & _).
    rewrite Hesc in Hrm. split; [exact Hrm|exact (Hin Hesc)]. }
  destruct (prepare rt h self) as [pre fl] eqn:Hp.
  destruct fl as [l| |e].
  - destruct (Hprep pre l eq_refl) as [Hrm Hin].
    destruct (run_summary rt h self pre l Hp) as (m & c & _ & _ & Hcmds & _).
    rewrite Hrm in Hcmds. simpl in Hcmds. fold tr in Hcmds.
    split; [|split; [exact Hprep|]].
    + intros cmd Hcmd. rewrite Hcmds in Hcmd. apply in_map_iff in Hcmd.
      destruct Hcmd as (j & <- & _). split; [exists l, j; reflexivity|].
      intros. apply precise_is_not_fast.
    + intros _. apply in_split in Hin. destruct Hin as (a & b & Hab).
      destruct (prepare_inv rt h self pre l Hp) as (_ & _ & _ & _ & _ & _ & _ & Hq & _).
      exists a. eexists. split.
      * unfold tr. rewrite (run_after_prepare rt h self pre l Hp), Hab, <- app_assoc.
        simpl. reflexivity.
      * rewrite Hab, segment_cmds_app in Hq. apply app_eq_nil in Hq. tauto.
  - assert (Hnone : segment_cmds tr = [])
      by (apply (run_without_loops rt h self pre Return Hp); discriminate).
    split; [|split; [exact Hprep|]].
    + intros cmd Hcmd. rewrite Hnone in Hcmd. destruct Hcmd.
    + intros Hne. contradiction.
  - assert (Hnone : segment_cmds tr = [])
      by (apply (run_without_loops rt h self pre (Raise e) Hp); discriminate).
    split; [|split; [exact Hprep|]].
    + intros cmd Hcmd. rewrite Hnone in Hcmd. destruct Hcmd.
    + intros Hne. contradiction.
Qed.

Lemma plan_index_runs total seg fuel : forall i k,
  (k < List.length (plan total seg fuel i))%nat ->
  segment_length total seg ((i + Z.of_nat k) * seg)
  = Some (duration_at total seg (i + Z.of_nat k)).
Proof.
  induction fuel as [|fuel IH]; intros i k Hk; simpl in Hk; [lia|].
  destruct (segment_length total seg (i * seg)) as [d|] eqn:E; simpl in Hk; [|lia].
  destruct k as [|k].
  - rewrite Z.add_0_r. unfold duration_at. rewrite E. reflexivity.
  - replace (i + Z.of_nat (S k)) with (i + 1 + Z.of_nat k) by lia. apply IH. lia.
Qed.

(** The i-th segment command of a run, argument by argument, in each mode. *)
Lemma nth_segment_command rt h self pre l i cmd :
  prepare rt h self = (pre, Next l) ->
  nth_error (segment_cmds (run rt h self)) i = Some cmd ->
  let k := Z.of_nat i in
  let start_time := k * segment_duration self in
  let duration := duration_at (total_duration l) (segment_duration self) k in
  let name := fst (splitext rt (basename rt (input_path self))) in
  let source_ext := snd (splitext rt (input_path self)) in
  segment_length (total_duration l) (segment_duration self) start_time = Some duration /\
  ffmpeg_path h = Some (ffmpeg l) /\
  (run_mode l <> "fast" ->
   cmd = [ Lit (ffmpeg l ++ "ffmpeg")%string; Lit "-accurate_seek";
           Lit "-ss"; Num (Int start_time); Lit "-i"; Lit (input_path self);
           Lit "-t"; Num duration;
           Lit "-c:v"; Lit "libx264"; Lit "-c:a"; Lit "aac";
           Lit "-preset"; Lit "medium"; Lit "-crf"; Lit "23"; Lit "-b:a"; Lit "192k";
           Lit "-map"; Lit "0:v"; Lit "-map"; Lit "0:a";
           Lit "-movflags"; Lit "+faststart" ]
         ++ filter_args (scale_filter l)
         ++ [ Lit (join rt (output_dir self) (name ++ "_" ++ fmt_03d k ++ ".mp4")%string) ]) /\
  (run_mode l = "fast" ->
   cmd = [ Lit (ffmpeg l ++ "ffmpeg")%string; Lit "-accurate_seek";
           Lit "-ss"; Num (Int start_time); Lit "-i"; Lit (input_path self);
           Lit "-t"; Num duration;
           Lit "-c"; Lit "copy"; Lit "-map"; Lit "0:v"; Lit "-map"; Lit "0:a" ]
         ++ filter_args (scale_filter l)
         ++ [ Lit (join rt (output_dir self) (name ++ "_" ++ fmt_03d k ++ source_ext)%string) ]).
Proof.
  intros Hp Hnth k start_time duration name source_ext.
  destruct (prepare_inv rt h self pre l Hp) as ((p & Hpath & _ & Hff) & Hname & Hext & _).
  destruct (run_summary rt h self pre l Hp) as (m & c & Hm & _ & Hcmds & _).
  rewrite Hcmds in Hnth.
  assert (Hi : (i < m)%nat).
  { assert (Hs : nth_error (map (if (run_mode l =? "fast")%string
                                 then fast_call rt self l else precise_call rt self l)
                                (zrange 0 m)) i <> None) by (rewrite Hnth; discriminate).
    apply nth_error_Some in Hs. rewrite length_map, zrange_length in Hs. exact Hs. }
  rewrite nth_error_map, (zrange_nth 0 m i Hi) in Hnth. simpl in Hnth.
  injection Hnth as <-. fold k.
  split.
  { apply (plan_index_runs _ _ (Z.to_nat (num_segments l)) 0 i). lia. }
  split; [rewrite Hpath, Hff; reflexivity|].
  unfold name, source_ext. rewrite <- Hname, <- Hext.
  split; intros Hrm.
  - apply String.eqb_neq in Hrm. rewrite Hrm. reflexivity.
  - rewrite Hrm. reflexivity.
Qed.

(** *** The target resolution *)

Lemma all_below_spec f m :
  all_below f m = true -> forall z, 0 <= z < Z.of_nat m -> f z = true.
Proof.
  induction m as [|m IH]; intros H z Hz; [lia|].
  simpl in H. apply andb_prop in H. destruct H as [H0 H1].
  destruct (Z.eq_dec z (Z.of_nat m)) as [->|Hne]; [exact H0|].
  apply IH; [exact H1|lia].
Qed.

Lemma ratio_is_floor_9_16 : all_below (ratio_is_floor 9 16) 1921 = true.
Proof. vm_compute. reflexivity. Qed.

Lemma ratio_is_floor_4_5 : all_below (ratio_is_floor 4 5) 1351 = true.
Proof. vm_compute. reflexivity. Qed.

Lemma int_ratio_floor p q bound z :
  all_below (ratio_is_floor p q) (S bound) = true ->
  0 <= z <= Z.of_nat bound ->
  int_ratio z p q = inr (z * p / q).
Proof.
  intros Hall Hz. pose proof (all_below_spec _ _ Hall z ltac:(lia)) as H.
  unfold ratio_is_floor in H. destruct (int_ratio z p q) as [e|r]; [discriminate|].
  apply Z.eqb_eq in H. rewrite H. reflexivity.
Qed.

(** C3. For a source resolution of positive width and height and each ratio
    class, the leading dimension is the smaller of the source dimension and
    the ceiling of the class (height 1920 for 9:16, height 1350 for 4:5, side
    1080 for 1:1, width 1920 for 16:9), and the other dimension is the floor
    of the exact ratio. *)
Theorem C3_target_resolution res w h :
  parse_resolution res = Some (w, h) ->
  0 < w -> 0 < h ->
  calculate_target_resolution res "9:16"
    = inr (Some (Z.min h 1920 * 9 / 16, Z.min h 1920)) /\
  calculate_target_resolution res "4:5"
    = inr (Some (Z.min h 1350 * 4 / 5, Z.min h 1350)) /\
  calculate_target_resolution res "1:1"
    = inr (Some (Z.min (Z.min w h) 1080, Z.min (Z.min w h) 1080)) /\
  calculate_target_resolution res "16:9"
    = inr (Some (Z.min w 1920, Z.min w 1920 * 9 / 16)) /\
  calculate_target_resolution res "original" = inr None.
Proof.
  intros Hparse Hw Hh. unfold calculate_target_resolution. rewrite Hparse.
  cbn [String.eqb Ascii.eqb Bool.eqb andb].
  rewrite (int_ratio_floor 9 16 1920 (Z.min h 1920) ratio_is_floor_9_16) by lia.
  rewrite (int_ratio_floor 4 5 1350 (Z.min h 1350) ratio_is_floor_4_5) by lia.
  rewrite (int_ratio_floor 9 16 1920 (Z.min w 1920) ratio_is_floor_9_16) by lia.
  repeat split; reflexivity.
Qed.

(** The example of the specification. *)
Lemma C3_target_resolution_witness :
  parse_resolution "1920x1080" = Some (1920, 1080) /\
  calculate_target_resolution "1920x1080" "9:16" = inr (Some (607, 1080)).
Proof.
  split; [reflexivity|].
  exact (proj1 (C3_target_resolution "1920x1080" 1920 1080 eq_refl eq_refl eq_refl)).
Defined.

(** *** The resolution probe *)

Lemma fast_loop_probe_irrelevant rt h c self l fuel : forall i,
  fast_loop rt (with_resolution_probe h c) self l fuel i = fast_loop rt h self l fuel i.
Proof.
  induction fuel as [|fuel IH]; intros i; [reflexivity|].
  simpl. destruct (segment_length _ _ _); [|reflexivity].
  destruct (encode h i) as [e|rc out err]; simpl; [reflexivity|].
  destruct (rc =? 0)%Z; simpl;
    (destruct (percentage i (num_segments l)); simpl; [reflexivity|]);
    (destruct (Qle_bool _ _); simpl; [reflexivity|]);
    rewrite IH; reflexivity.
Qed.

Lemma precise_loop_probe_irrelevant rt h c self l fuel : forall i,
  precise_loop rt (with_resolution_probe h c) self l fuel i = precise_loop rt h self l fuel i.
Proof.
  induction fuel as [|fuel IH]; intros i; [reflexivity|].
  simpl. destruct (segment_length _ _ _); [|reflexivity].
  destruct (encode h i) as [e|rc out err]; simpl; [reflexivity|].
  destruct (rc =? 0)%Z; simpl; [|reflexivity].
  destruct (percentage i (num_segments l)); simpl; [reflexivity|].
  destruct (Qle_bool _ _); simpl; [reflexivity|].
  rewrite IH. reflexivity.
Qed.

Lemma split_probe_irrelevant rt h c self l :
  split rt (with_resolution_probe h c) self l = split rt h self l.
Proof.
  unfold split. rewrite fast_loop_probe_irrelevant, precise_loop_probe_irrelevant. reflexivity.
Qed.

Lemma run_shape rt h self :
  run rt h self = fst (prepare rt h self) ++ after_prepare rt h self (snd (prepare rt h self)).
Proof.
  destruct (prepare rt h self) as [pre fl] eqn:Hp. destruct fl as [l| |e].
  - apply (run_after_prepare rt h self pre l Hp).
  - unfold run, run_body. rewrite Hp. simpl. rewrite app_nil_r. reflexivity.
  - unfold run, run_body. rewrite Hp. reflexivity.
Qed.

Lemma unparsable_uses_default res ratio :
  parse_resolution res = None ->
  calculate_target_resolution res ratio = calculate_target_resolution "1920x1080" ratio.
Proof.
  intros H. unfold calculate_target_resolution. rewrite H.
  change (parse_resolution "1920x1080") with (Some (1920, 1080)). reflexivity.
Qed.

Lemma prepare_fallback rt h self rc out err :
  probe_resolution h = Exited rc out err ->
  rc <> 0 \/ parse_resolution (strip out) = None ->
  let h' := with_resolution_probe h (Exited 0 "1920x1080" EmptyString) in
  map redact (fst (prepare rt h self)) = map redact (fst (prepare rt h' self)) /\
  snd (prepare rt h self) = snd (prepare rt h' self) /\
  (rc <> 0 -> prepare rt h self = prepare rt h' self).
Proof.
  intros Hprobe Hfail h'. unfold prepare, plan_scaling. simpl ffmpeg_path. simpl probe_duration.
  simpl probe_resolution. rewrite Hprobe.
  destruct (ffmpeg_path h) as [[|c p]|]; try (repeat split; reflexivity).
  destruct (probe_duration h) as [e|drc dout derr]; try (repeat split; reflexivity).
  simpl. destruct (drc =? 0)%Z; try (repeat split; reflexivity). simpl.
  destruct (float_of_str rt (strip dout)) as [total|]; try (repeat split; reflexivity). simpl.
  change (strip "1920x1080") with "1920x1080".
  destruct (Z.eqb_spec rc 0) as [->|Hrc].
  - destruct Hfail as [Hne|Hparse]; [contradiction|].
    rewrite (unparsable_uses_default _ (resolution self) Hparse).
    split; [|split; [|intros Hne; contradiction]];
    (destruct (calculate_target_resolution "1920x1080" (resolution self)) as [e|target];
       [reflexivity|]);
    simpl;
    destruct (count_segments total (segment_duration self)) as [e|cnt];
    destruct total as [q| |];
    (destruct target as [[tw th]|];
     [destruct (negb (tw =? 0)%Z && negb (th =? 0)%Z)%bool|]);
    try reflexivity;
    destruct (resolution self =? "original")%string;
    destruct (scale_crop self);
    destruct (mode self =? "fast")%string; reflexivity.
  - repeat split; reflexivity.
Qed.

Lemma redact_app a b : map redact (a ++ b) = map redact a ++ map redact b.
Proof. apply map_app. Qed.

Lemma terminal_of_redact tr : terminal_of (map redact tr) = terminal_of tr.
Proof.
  unfold terminal_of.
  assert (H : last (map redact tr) (Spawn []) = redact (last tr (Spawn []))).
  { induction tr as [|e tr IH]; [reflexivity|].
    destruct tr as [|e' tr]; [reflexivity|].
    change (map redact (e :: e' :: tr)) with (redact e :: map redact (e' :: tr)).
    change (last (e :: e' :: tr) (Spawn [])) with (last (e' :: tr) (Spawn [])).
    rewrite <- IH. reflexivity. }
  rewrite H. destruct (last tr (Spawn [])) as [[t|ok t|t|p]|cmd]; try reflexivity.
  destruct t; reflexivity.
Qed.

Lemma warnings_redact tr : warnings (map redact tr) = warnings tr.
Proof.
  induction tr as [|e tr IH]; [reflexivity|].
  simpl. rewrite IH. destruct e as [[t|ok t|t|p]|cmd]; try reflexivity.
  destruct t; reflexivity.
Qed.

(** C9 as stated fails: with a failing resolution probe the run goes on with
    1920x1080 and completes, but it emits no warning; its events are those of
    a run whose probe printed 1920x1080.  An output that does not parse is
    taken over just as silently. *)
Lemma C9_counterexample :
  let rt := sample_runtime in
  let self := sample_worker 60 "precise" "9:16" in
  let good := sample_host "125" "1920x1080" none_failing in
  let failing := with_resolution_probe good (Exited 1 EmptyString "ffprobe: error") in
  let garbled := sample_host "125" "N/A" none_failing in
  terminal_of (run rt failing self) = Some Completed /\
  warnings (run rt failing self) = [] /\
  run rt failing self = run rt good self /\
  terminal_of (run rt garbled self) = Some Completed /\
  warnings (run rt garbled self) = [].
Proof. vm_compute. repeat split; reflexivity. Qed.

(** C9, amended. When the resolution probe exits non-zero, or prints
    something that does not parse as WIDTHxHEIGHT, the target resolution is
    computed from 1920x1080 and the run ends as it would have with a probe
    that printed 1920x1080; no event marks the fallback: but for the text of
    the original-resolution line the events are the same, warnings included,
    and after a non-zero exit they are identical. *)
Theorem C9_resolution_fallback_silent rt h self rc out err :
  probe_resolution h = Exited rc out err ->
  rc <> 0 \/ parse_resolution (strip out) = None ->
  let original_resolution := if (rc =? 0)%Z then strip out else "1920x1080" in
  let h' := with_resolution_probe h (Exited 0 "1920x1080" EmptyString) in
  (forall ratio, calculate_target_resolution original_resolution ratio
                 = calculate_target_resolution "1920x1080" ratio) /\
  map redact (run rt h self) = map redact (run rt h' self) /\
  terminal_of (run rt h self) = terminal_of (run rt h' self) /\
  warnings (run rt h self) = warnings (run rt h' self) /\
  (rc <> 0 -> run rt h self = run rt h' self).
Proof.
  intros Hprobe Hfail original_resolution h'.
  destruct (prepare_fallback rt h self rc out err Hprobe Hfail) as (Hfst & Hsnd & Heq).
  fold h' in Hfst, Hsnd, Heq.
  assert (Hafter : after_prepare rt h' self (snd (prepare rt h' self))
                   = after_prepare rt h self (snd (prepare rt h self))).
  { rewrite <- Hsnd. unfold after_prepare. destruct (snd (prepare rt h self)); [|reflexivity..].
    unfold h'. rewrite split_probe_irrelevant. reflexivity. }
  assert (Hred : map redact (run rt h self) = map redact (run rt h' self)).
  { rewrite (run_shape rt h), (run_shape rt h'), !redact_app, Hfst, Hafter. reflexivity. }
  split; [|split; [exact Hred|split; [|split]]].
  - intros ratio. unfold original_resolution.
    destruct (Z.eqb_spec rc 0) as [->|Hne]; [|reflexivity].
    destruct Hfail as [Hne|Hparse]; [contradiction|].
    apply unparsable_uses_default, Hparse.
  - rewrite <- (terminal_of_redact (run rt h self)), Hred. apply terminal_of_redact.
  - rewrite <- (warnings_redact (run rt h self)), Hred. apply warnings_redact.
  - intros Hne. rewrite (run_shape rt h), (run_shape rt h'), Hafter, (Heq Hne). reflexivity.
Qed.

(** *** The theorems at concrete inputs *)



Lemma C4_witness :
  let rt := sample_runtime in
  let h := sample_host "125" "1920x1080" none_failing in
  let self := sample_worker 60 "fast" "9:16" in
  mode self = "fast" /\
  resolution self <> "original" /\
  List.length (segment_cmds (run rt h self)) = 3%nat /\
  forall cmd, In cmd (segment_cmds (run rt h self)) ->
    (exists l i, cmd = precise_call rt self l i) /\
    (forall f inp st d sf o, cmd <> fast_cmd f inp st d sf o).
Proof.
  intros rt h self.
  split; [reflexivity|]. split; [discriminate|]. split; [vm_compute; reflexivity|].
  apply (C4_fast_request_escalates rt h self); [reflexivity|discriminate].
Defined.

Lemma sample_host_exits d r f j : exits (encode (sample_host d r f) j).
Proof. unfold exits. simpl. destruct (f j); do 3 eexists; reflexivity. Defined.

Lemma C5_witness :
  let rt := sample_runtime in
  let h := sample_host "200" "1920x1080" second_failing in
  let self := sample_worker 60 "fast" "original" in
  exists pre l,
    prepare rt h self = (pre, Next l) /\
    mode self = "fast" /\
    resolution self = "original" /\
    (forall j, exits (encode h j)) /\
    List.length (executed (run rt h self)) = 4%nat /\
    warned (run rt h self) = [2] /\
    succeeded (run rt h self) = [1; 3; 4] /\
    terminal_of (run rt h self) = Some Completed.
Proof.
  intros rt h self. eexists. eexists.
  split; [lazy; reflexivity|]. split; [reflexivity|]. split; [reflexivity|].
  split; [apply sample_host_exits|].
  split; [vm_compute; reflexivity|]. split; [vm_compute; reflexivity|].
  split; [vm_compute; reflexivity|].
  eapply C5_fast_failure_is_warning;
    [lazy; reflexivity|reflexivity|reflexivity|apply sample_host_exits].
Defined.

Lemma C6_witness :
  let rt := sample_runtime in
  let h := sample_host "200" "1920x1080" second_failing in
  let self := sample_worker 60 "precise" "original" in
  exists pre l,
    prepare rt h self = (pre, Next l) /\
    (mode self <> "fast" \/ resolution self <> "original") /\
    0 < segment_duration self /\
    0 <= 1 /\
    (inject_Z (1 * segment_duration self) < total_duration l)%Q /\
    (forall j, 0 <= j < 1 -> exits_zero (encode h j)) /\
    encode h 1 = Exited 1 EmptyString "boom" /\
    1 <> 0 /\
    List.length (executed (run rt h self)) = 2%nat /\
    terminal_of (run rt h self) = Some (Aborted (segment_error 2 "boom")).
Proof.
  intros rt h self.
  assert (Hbefore : forall j, 0 <= j < 1 -> exits_zero (encode h j)).
  { intros j Hj. replace j with 0 by lia. do 2 eexists. reflexivity. }
  eexists. eexists.
  split; [lazy; reflexivity|]. split; [left; discriminate|]. split; [reflexivity|].
  split; [discriminate|]. split; [reflexivity|]. split; [exact Hbefore|].
  split; [reflexivity|]. split; [discriminate|]. split; [vm_compute; reflexivity|].
  eapply (C6_precise_failure_aborts rt h self _ _ 1 1 EmptyString "boom");
    [lazy; reflexivity|left; discriminate|reflexivity|discriminate|reflexivity
    |exact Hbefore|reflexivity|discriminate].
Defined.

Lemma C7_witness :
  let rt := sample_runtime in
  let h := sample_host "125" "1920x1080" none_failing in
  let self := sample_worker 60 "fast" "original" in
  exists pre l,
    prepare rt h self = (pre, Next l) /\
    percentages (run rt h self) = [33; 66; 100] /\
    (forall a b pa pb, (a <= b)%nat ->
       nth_error (percentages (run rt h self)) a = Some pa ->
       nth_error (percentages (run rt h self)) b = Some pb -> pa <= pb).
Proof.
  intros rt h self. eexists. eexists.
  split; [lazy; reflexivity|]. split; [vm_compute; reflexivity|].
  eapply C7_percentage_truncated. lazy; reflexivity.
Defined.

Lemma C9_witness :
  let rt := sample_runtime in
  let self := sample_worker 60 "precise" "9:16" in
  let h := with_resolution_probe (sample_host "125" "1920x1080" none_failing)
             (Exited 1 EmptyString "ffprobe: error") in
  probe_resolution h = Exited 1 EmptyString "ffprobe: error" /\
  (1 <> 0 \/ parse_resolution (strip EmptyString) = None) /\
  run rt h self
  = run rt (with_resolution_probe h (Exited 0 "1920x1080" EmptyString)) self.
Proof.
  intros rt self h.
  split; [reflexivity|]. split; [left; discriminate|].
  apply (C9_resolution_fallback_silent rt h self 1 EmptyString "ffprobe: error");
    [reflexivity|left; discriminate|discriminate].
Defined.

Lemma C10_witness :
  let rt := sample_runtime in
  let h := sample_host "125" "1920x1080" none_failing in
  let self := sample_worker 60 "fast" "original" in
  exists pre l,
    prepare rt h self = (pre, Next l) /\
    (0 < total_duration l)%Q /\
    0 < segment_duration self /\
    num_segments l <= 2 ^ 53 /\
    terminal_of (run rt h self) = Some Completed /\
    last (percentages (run rt h self)) 0 = 100 /\
    ~ is_multiple (total_duration l) (segment_duration self).
Proof.
  intros rt h self. eexists. eexists.
  split; [lazy; reflexivity|]. split; [reflexivity|]. split; [reflexivity|].
  split; [discriminate|]. split; [vm_compute; reflexivity|].
  split; [vm_compute; reflexivity|].
  eassert (Hp : prepare rt h self = (_, Next _)) by (lazy; reflexivity).
  assert (Hdone : terminal_of (run rt h self) = Some Completed) by (vm_compute; reflexivity).
  assert (Hlast : last (percentages (run rt h self)) 0 = 100) by (vm_compute; reflexivity).
  exact (proj1 (proj1 (proj2 (C10_final_percentage rt h self _ _ Hp eq_refl eq_refl
                                ltac:(discriminate) Hdone))) Hlast).
Defined.


(* ================================================================== *)
(** ** Further properties of the worker *)

(** *** Tool lookup *)

Lemma run_tool_missing rt h self :
  ffmpeg_path h = None \/ ffmpeg_path h = Some EmptyString ->
  run rt h self = [Emit (error ffmpeg_not_found)].
Proof.
  intros [H|H]; unfold run, run_body, prepare; rewrite H; reflexivity.
Qed.

Lemma bind_emit_fst {B} s (k : unit -> action B) :
  fst (bind (emit s) k) = Emit s :: fst (k tt).
Proof. unfold bind, emit. destruct (k tt). reflexivity. Qed.

Lemma run_tool_found rt h self c p :
  ffmpeg_path h = Some (String c p) ->
  exists rest, run rt h self = Emit (progress probing) :: rest.
Proof.
  intros H. rewrite run_shape. unfold prepare at 1. rewrite H. cbv beta iota zeta.
  rewrite bind_emit_fst. eexists. reflexivity.
Qed.

(** X1. [run] accepts the result of [get_ffmpeg_path] only when ffmpeg.exe
    lies beside the executable (or, in a frozen build, in the bundle
    directory).  When it is found nowhere, or only in the current directory
    or on the search path, [get_ffmpeg_path] returns nothing or the empty
    string, which [run] takes for "not found": the run consists of the
    FFmpeg-not-found error alone. *)
Theorem tool_beside_executable_or_not_found rt os h self :
  ffmpeg_path h = get_ffmpeg_path rt os ->
  let beside :=
    file_exists os (join rt (dirname os (abspath os (executable os))) "ffmpeg.exe") in
  let bundled :=
    (frozen os && file_exists os (join rt (dirname os (executable os)) "ffmpeg.exe"))%bool in
  ((beside || bundled)%bool = false ->
   run rt h self = [Emit (error ffmpeg_not_found)]) /\
  ((beside || bundled)%bool = true ->
   exists rest, run rt h self = Emit (progress probing) :: rest).
Proof.
  intros Hpath beside bundled. unfold get_ffmpeg_path in Hpath.
  fold beside in Hpath. split; intros Hb.
  - apply orb_false_elim in Hb. destruct Hb as [Hb1 Hb2].
    rewrite Hb1 in Hpath. apply run_tool_missing.
    unfold bundled in Hb2.
    destruct (frozen os); simpl in Hb2; [rewrite Hb2 in Hpath|];
      (destruct (file_exists os "ffmpeg.exe"); [right; exact Hpath|]);
      (destruct (ffmpeg_version os) as [e|[|rc|rc] out err]; [left|right|left|left]; exact Hpath).
  - destruct beside eqn:E1.
    + destruct (dirname os (abspath os (executable os))) as [|c d];
        eapply run_tool_found; exact Hpath.
    + simpl in Hb. unfold bundled in Hb. apply andb_prop in Hb. destruct Hb as [Hf He].
      rewrite Hf, He in Hpath.
      destruct (dirname os (executable os)) as [|c d]; eapply run_tool_found; exact Hpath.
Qed.

Lemma tool_beside_executable_or_not_found_witness :
  let rt := sample_runtime in
  let os := sample_installation in
  let h := {| ffmpeg_path := get_ffmpeg_path rt os;
              probe_duration := Exited 0 "125" EmptyString;
              probe_resolution := Exited 0 "1920x1080" EmptyString;
              encode := fun _ => Exited 0 EmptyString EmptyString |} in
  file_exists os "ffmpeg.exe" = true /\
  ffmpeg_path h = get_ffmpeg_path rt os /\
  run rt h (sample_worker 60 "fast" "original") = [Emit (error ffmpeg_not_found)].
Proof.
  intros rt os h. split; [reflexivity|]. split; [reflexivity|].
  apply (tool_beside_executable_or_not_found rt os h); reflexivity.
Defined.


(** *** The signals of a run *)

(** The preparation emits log lines and spawns the probes; when it returns
    early it does so right after an error signal. *)
Lemma prepare_events rt h self :
  match snd (prepare rt h self) with
  | Return => exists tr0 t, fst (prepare rt h self) = tr0 ++ [Emit (error t)] /\
                            forallb is_preparation tr0 = true
  | _ => forallb is_preparation (fst (prepare rt h self)) = true
  end.
Proof.
  unfold prepare, plan_scaling.
  destruct (ffmpeg_path h) as [[|c p]|];
    try (exists [], ffmpeg_not_found; split; reflexivity).
  destruct (probe_duration h) as [e|rc out err]; try reflexivity.
  simpl. destruct (rc =? 0)%Z; simpl.
  2: { eexists [_; _], duration_unavailable. split; reflexivity. }
  destruct (float_of_str rt (strip out)) as [total|]; try reflexivity. simpl.
  destruct (probe_resolution h) as [e|rrc rout rerr]; try reflexivity. simpl.
  destruct (calculate_target_resolution _ (resolution self)) as [e|target]; try reflexivity.
  simpl.
  destruct (count_segments total (segment_duration self)) as [e|cnt];
    destruct total as [q| |];
    (destruct target as [[tw th]|];
     [destruct (negb (tw =? 0)%Z && negb (th =? 0)%Z)%bool|]);
    try reflexivity;
    destruct (resolution self =? "original")%string;
    destruct (scale_crop self);
    destruct (mode self =? "fast")%string; reflexivity.
Qed.

Lemma preparation_is_ongoing tr :
  forallb is_preparation tr = true -> forallb is_ongoing tr = true.
Proof.
  induction tr as [|e tr IH]; [reflexivity|]. simpl. intros H.
  apply andb_prop in H. destruct H as [He Htr]. rewrite (IH Htr), andb_true_r.
  destruct e as [[t|ok t|t|p]|cmd]; try discriminate; reflexivity.
Qed.

Lemma preparation_percentages tr :
  forallb is_preparation tr = true -> percentages tr = [].
Proof.
  induction tr as [|e tr IH]; [reflexivity|]. simpl. intros H.
  apply andb_prop in H. destruct H as [He Htr]. rewrite (IH Htr).
  destruct e as [[t|ok t|t|p]|cmd]; try discriminate; reflexivity.
Qed.

Lemma preparation_segment_cmds tr :
  forallb is_preparation tr = true -> segment_cmds tr = [].
Proof.
  induction tr as [|e tr IH]; [reflexivity|]. simpl. intros H.
  apply andb_prop in H. destruct H as [He Htr]. rewrite (IH Htr).
  destruct e as [[t|ok t|t|p]|cmd]; try discriminate; try reflexivity.
  simpl in He. destruct (is_segment_cmd cmd); [discriminate|reflexivity].
Qed.

Section LoopSignals.

Variable rt : runtime.
Variable h : host.
Variable self : WorkerThread.
Variable l : locals.

(** The fast loop never returns early and emits no terminal signal. *)
Lemma fast_loop_signals fuel : forall i,
  0 <= i -> Z.of_nat fuel <= Z.max 0 (num_segments l - i) ->
  forallb is_ongoing (fst (fast_loop rt h self l fuel i)) = true /\
  snd (fast_loop rt h self l fuel i) <> Return.
Proof.
  induction fuel as [|fuel IH]; intros i Hi Hn.
  - split; [reflexivity|discriminate].
  - destruct (segment_length (total_duration l) (segment_duration self)
                (i * segment_duration self)) as [d|] eqn:E.
    + rewrite (fast_loop_step rt h self l fuel i d E Hi ltac:(lia)).
      destruct (encode h i) as [e|rc out err].
      * split; [reflexivity|discriminate].
      * destruct (IH (i + 1) ltac:(lia) ltac:(lia)) as [Hq Hfl].
        destruct (fast_loop rt h self l fuel (i + 1)) as [tr fl]. simpl in *.
        split; [|exact Hfl]. unfold fast_note. destruct (rc =? 0)%Z; exact Hq.
    + rewrite (fast_loop_stop rt h self l (S fuel) i E). split; [reflexivity|discriminate].
Qed.

(** The precise loop emits a terminal signal only as its last effect, and
    then returns. *)
Lemma precise_loop_signals fuel : forall i,
  0 <= i -> Z.of_nat fuel <= Z.max 0 (num_segments l - i) ->
  match snd (precise_loop rt h self l fuel i) with
  | Return => exists tr0 t, fst (precise_loop rt h self l fuel i) = tr0 ++ [Emit (error t)] /\
                            forallb is_ongoing tr0 = true
  | _ => forallb is_ongoing (fst (precise_loop rt h self l fuel i)) = true
  end.
Proof.
  induction fuel as [|fuel IH]; intros i Hi Hn.
  - reflexivity.
  - destruct (segment_length (total_duration l) (segment_duration self)
                (i * segment_duration self)) as [d|] eqn:E.
    + rewrite (precise_loop_step rt h self l fuel i d E Hi ltac:(lia)).
      destruct (encode h i) as [e|rc out err].
      * reflexivity.
      * destruct (rc =? 0)%Z; simpl negb; cbv iota.
        -- specialize (IH (i + 1) ltac:(lia) ltac:(lia)).
           destruct (precise_loop rt h self l fuel (i + 1)) as [tr [[]| |e]]; simpl in *.
           ++ exact IH.
           ++ destruct IH as (tr0 & t & -> & Hq).
              eexists (_ :: _ :: _ :: _ :: tr0), t. split; [reflexivity|exact Hq].
           ++ exact IH.
        -- simpl. eexists [_; _], _. split; reflexivity.
    + rewrite (precise_loop_stop rt h self l (S fuel) i E). reflexivity.
Qed.

End LoopSignals.

Lemma forallb_app_true {A} (f : A -> bool) a b :
  forallb f a = true -> forallb f b = true -> forallb f (a ++ b) = true.
Proof. intros Ha Hb. rewrite forallb_app, Ha, Hb. reflexivity. Qed.

(** X2. Every run, whatever the machine does, emits exactly one terminal
    signal ([finished] or [error]) and emits it last; a [finished] signal
    always reports success and names the output directory. *)
Theorem run_ends_with_one_terminal_signal rt h self :
  exists before last_signal,
    run rt h self = before ++ [Emit last_signal] /\
    forallb is_ongoing before = true /\
    (last_signal = finished true (files_saved_in (output_dir self)) \/
     exists t, last_signal = error t).
Proof.
  rewrite run_shape. pose proof (prepare_events rt h self) as Hprep.
  destruct (prepare rt h self) as [pre fl]. simpl fst in *. simpl snd in *.
  destruct fl as [l| |e].
  - apply preparation_is_ongoing in Hprep. unfold after_prepare.
    destruct (String.eqb_spec (run_mode l) "fast") as [Hfast|Hprec].
    + rewrite (split_fast rt h self l Hfast). cbn [fst snd].
      destruct (fast_loop_signals rt h self l (Z.to_nat (num_segments l)) 0
                  ltac:(lia) ltac:(lia)) as [Hq Hfl].
      destruct (fast_loop rt h self l (Z.to_nat (num_segments l)) 0) as [tr [[]| |e]];
        simpl in *.
      * exists (pre ++ Emit (progress fast_mode_banner) :: tr), (finished true (files_saved_in (output_dir self))).
        split; [rewrite <- app_assoc; reflexivity|].
        split; [apply forallb_app_true; [exact Hprep|exact Hq]|left; reflexivity].
      * contradiction.
      * exists (pre ++ Emit (progress fast_mode_banner) :: tr), (error (exception_text e)).
        split; [rewrite <- app_assoc; reflexivity|].
        split; [apply forallb_app_true; [exact Hprep|exact Hq]|right; eexists; reflexivity].
    + rewrite (split_precise rt h self l Hprec). cbn [fst snd].
      pose proof (precise_loop_signals rt h self l (Z.to_nat (num_segments l)) 0
                    ltac:(lia) ltac:(lia)) as Hq.
      destruct (precise_loop rt h self l (Z.to_nat (num_segments l)) 0) as [tr [[]| |e]];
        simpl in *.
      * exists (pre ++ Emit (progress precise_mode_banner) :: tr), (finished true (files_saved_in (output_dir self))).
        split; [rewrite <- app_assoc; reflexivity|].
        split; [apply forallb_app_true; [exact Hprep|exact Hq]|left; reflexivity].
      * destruct Hq as (tr0 & t & -> & Hq).
        exists (pre ++ Emit (progress precise_mode_banner) :: tr0), (error t).
        split; [rewrite app_nil_r, <- app_assoc; reflexivity|].
        split; [apply forallb_app_true; [exact Hprep|exact Hq]|right; eexists; reflexivity].
      * exists (pre ++ Emit (progress precise_mode_banner) :: tr), (error (exception_text e)).
        split; [rewrite <- app_assoc; reflexivity|].
        split; [apply forallb_app_true; [exact Hprep|exact Hq]|right; eexists; reflexivity].
  - destruct Hprep as (tr0 & t & -> & Hq). apply preparation_is_ongoing in Hq.
    exists tr0, (error t). simpl. rewrite app_nil_r.
    split; [reflexivity|]. split; [exact Hq|right; eexists; reflexivity].
  - apply preparation_is_ongoing in Hprep.
    exists pre, (error (exception_text e)). simpl.
    split; [reflexivity|]. split; [exact Hprep|right; eexists; reflexivity].
Qed.


Lemma run_stops_in_preparation rt h self :
  (forall l, snd (prepare rt h self) <> Next l) ->
  percentages (run rt h self) = [] /\ segment_cmds (run rt h self) = [].
Proof.
  intros Hfl. rewrite run_shape. pose proof (prepare_events rt h self) as Hprep.
  destruct (prepare rt h self) as [pre fl]. simpl fst in *. simpl snd in *.
  destruct fl as [l| |e].
  - exfalso. apply (Hfl l). reflexivity.
  - destruct Hprep as (tr0 & t & -> & Hq). simpl. rewrite app_nil_r.
    rewrite percentages_app, segment_cmds_app,
      (preparation_percentages _ Hq), (preparation_segment_cmds _ Hq). split; reflexivity.
  - simpl. rewrite percentages_app, segment_cmds_app,
      (preparation_percentages _ Hprep), (preparation_segment_cmds _ Hprep). split; reflexivity.
Qed.

(** X3. Every percentage a run emits, on any machine and for any input,
    lies between 0 and 100. *)
Theorem percentages_between_0_and_100 rt h self :
  forall p, In p (percentages (run rt h self)) -> 0 <= p <= 100.
Proof.
  intros p Hp. destruct (prepare rt h self) as [pre fl] eqn:Hprep.
  destruct fl as [l| |e].
  - destruct (run_summary rt h self pre l Hprep) as (m & c & Hm & Hcm & _ & _ & Hpc & _).
    pose proof (plan_length_le (total_duration l) (segment_duration self)
                  (Z.to_nat (num_segments l)) 0) as HK.
    rewrite Hpc in Hp. apply in_map_iff in Hp. destruct Hp as (j & <- & Hj).
    apply zrange_In in Hj. apply pct_range; lia.
  - destruct (run_stops_in_preparation rt h self) as [Hnone _].
    { rewrite Hprep. discriminate. }
    rewrite Hnone in Hp. destruct Hp.
  - destruct (run_stops_in_preparation rt h self) as [Hnone _].
    { rewrite Hprep. discriminate. }
    rewrite Hnone in Hp. destruct Hp.
Qed.

(** X4. When the probed duration is zero or negative the run attempts no
    segment and emits no percentage, and still ends with the [finished]
    signal. *)
Theorem empty_video_completes_without_segments rt h self pre l :
  prepare rt h self = (pre, Next l) ->
  (total_duration l <= 0)%Q ->
  segment_cmds (run rt h self) = [] /\
  percentages (run rt h self) = [] /\
  terminal_of (run rt h self) = Some Completed.
Proof.
  intros Hp Hle.
  assert (Hnone : segment_length (total_duration l) (segment_duration self)
                    (0 * segment_duration self) = None).
  { apply segment_length_none. exact Hle. }
  pose proof (prepare_events rt h self) as Hprep. rewrite Hp in Hprep. simpl in Hprep.
  rewrite (run_after_prepare rt h self pre l Hp).
  assert (Hsplit : exists banner,
            split rt h self l = ([Emit (progress banner)], Next tt)).
  { unfold split. destruct (run_mode l =? "fast")%string.
    - rewrite (fast_loop_stop rt h self l _ 0 Hnone). eexists. reflexivity.
    - rewrite (precise_loop_stop rt h self l _ 0 Hnone). eexists. reflexivity. }
  destruct Hsplit as [banner ->]. simpl.
  rewrite segment_cmds_app, percentages_app,
    (preparation_percentages _ Hprep), (preparation_segment_cmds _ Hprep).
  repeat split; try reflexivity.
  change (pre ++ [Emit (progress banner); Emit (finished true (files_saved_in (output_dir self)))])
    with (pre ++ [Emit (progress banner)] ++ [Emit (finished true (files_saved_in (output_dir self)))]).
  rewrite app_assoc, terminal_of_snoc. reflexivity.
Qed.

Lemma empty_video_witness :
  let rt := sample_runtime in
  let h := sample_host "0" "1920x1080" none_failing in
  let self := sample_worker 60 "precise" "original" in
  exists pre l,
    prepare rt h self = (pre, Next l) /\
    (total_duration l <= 0)%Q /\
    segment_cmds (run rt h self) = [] /\
    terminal_of (run rt h self) = Some Completed.
Proof.
  intros rt h self. eexists. eexists.
  split; [lazy; reflexivity|]. split; [discriminate|].
  eassert (Hp : prepare rt h self = (_, Next _)) by (lazy; reflexivity).
  pose proof (empty_video_completes_without_segments rt h self _ _ Hp ltac:(discriminate)) as H.
  split; [exact (proj1 H)|exact (proj2 (proj2 H))].
Defined.

Lemma plan_count total seg fuel k :
  0 < seg -> (0 < total)%Q ->
  (total <= inject_Z (Z.of_nat fuel * seg))%Q ->
  k = List.length (plan total seg fuel 0) ->
  Z.of_nat k = Qceiling (total / inject_Z seg).
Proof.
  intros Hseg Htotal Hfuel ->.
  set (K := List.length (plan total seg fuel 0)).
  assert (Hs : (0 < inject_Z seg)%Q) by (rewrite <- (Zlt_Qlt 0); exact Hseg).
  assert (Hstop : (total <= inject_Z (Z.of_nat K * seg))%Q).
  { pose proof (plan_stops total seg fuel 0 Hfuel Hseg) as H. exact H. }
  assert (HK : (1 <= K)%nat).
  { assert (H0 : 0 < 0 + Z.of_nat K).
    { apply plan_reaches; [exact Hseg| |exact Htotal].
      destruct fuel; [|lia].
      change (inject_Z (Z.of_nat 0 * seg)) with 0%Q in Hfuel. exfalso. lra. }
    lia. }
  assert (Hlast : (inject_Z ((Z.of_nat K - 1) * seg) < total)%Q).
  { apply (plan_in_range total seg fuel 0); [exact Hseg|]. fold K. lia. }
  assert (Hup : (total / inject_Z seg <= inject_Z (Z.of_nat K))%Q).
  { apply Qle_shift_div_r; [exact Hs|]. rewrite <- inject_Z_mult. exact Hstop. }
  assert (Hlo : (inject_Z (Z.of_nat K - 1) < total / inject_Z seg)%Q).
  { apply Qlt_shift_div_l; [exact Hs|]. rewrite <- inject_Z_mult. exact Hlast. }
  pose proof (Qle_ceiling (total / inject_Z seg)) as Hc1.
  pose proof (Qceiling_lt (total / inject_Z seg)) as Hc2.
  assert (H1 : (inject_Z (Z.of_nat K - 1) < inject_Z (Qceiling (total / inject_Z seg)))%Q)
    by (eapply Qlt_le_trans; eassumption).
  assert (H2 : (inject_Z (Qceiling (total / inject_Z seg) - 1) < inject_Z (Z.of_nat K))%Q)
    by (eapply Qlt_le_trans; eassumption).
  rewrite <- Zlt_Qlt in H1, H2. lia.
Qed.

(** X5. For a positive duration and a positive segment length a run that
    completes has executed exactly ceil(total / segment) segments. *)
Theorem completed_run_segment_count rt h self pre l :
  prepare rt h self = (pre, Next l) ->
  (0 < total_duration l)%Q ->
  0 < segment_duration self ->
  terminal_of (run rt h self) = Some Completed ->
  Z.of_nat (List.length (executed (run rt h self)))
  = Qceiling (total_duration l / inject_Z (segment_duration self)).
Proof.
  intros Hp Htotal Hseg Hc.
  destruct (prepared_count rt h self pre l Hp) as [_ Hn].
  destruct (run_summary rt h self pre l Hp) as (m & c & _ & _ & _ & Hex & _ & _ & Hterm).
  destruct (Hterm Hc) as [_ HmK].
  rewrite Hex, length_map, zrange_length.
  apply (plan_count _ _ (Z.to_nat (num_segments l))); try assumption.
  assert (Hf : 0 <= Qfloor (total_duration l / inject_Z (segment_duration self))).
  { change 0 with (Qfloor 0). apply Qfloor_resp_le.
    apply Qle_shift_div_l; [rewrite <- (Zlt_Qlt 0); exact Hseg|].
    rewrite Qmult_0_l. apply Qlt_le_weak. exact Htotal. }
  rewrite Z2Nat.id, Hn by lia. apply Qlt_le_weak, count_covers, Hseg.
Qed.

Lemma completed_run_segment_count_witness :
  let rt := sample_runtime in
  let h := sample_host "125" "1920x1080" none_failing in
  let self := sample_worker 60 "fast" "original" in
  exists pre l,
    prepare rt h self = (pre, Next l) /\
    (0 < total_duration l)%Q /\
    0 < segment_duration self /\
    terminal_of (run rt h self) = Some Completed /\
    Z.of_nat (List.length (executed (run rt h self)))
    = Qceiling (total_duration l / inject_Z (segment_duration self)).
Proof.
  intros rt h self. eexists. eexists.
  split; [lazy; reflexivity|]. split; [reflexivity|]. split; [reflexivity|].
  split; [vm_compute; reflexivity|].
  eapply completed_run_segment_count;
    [lazy; reflexivity|reflexivity|reflexivity|vm_compute; reflexivity].
Defined.

Lemma duration_at_bounds total seg j :
  0 < seg -> (inject_Z (j * seg) < total)%Q ->
  (0 < value (duration_at total seg j))%Q /\
  (value (duration_at total seg j) <= inject_Z seg)%Q /\
  (value (duration_at total seg j) <= total - inject_Z (j * seg))%Q.
Proof.
  intros Hseg Hlt.
  assert (Hs : (0 < inject_Z seg)%Q) by (rewrite <- (Zlt_Qlt 0); exact Hseg).
  unfold duration_at.
  destruct (segment_length total seg (j * seg)) as [d|] eqn:E.
  - apply segment_length_some in E. destruct E as [_ [[Hr ->]|[Hr ->]]]; simpl; repeat split; lra.
  - apply segment_length_none in E. exfalso. lra.
Qed.

(** X6. For a positive segment length, every segment a run executes (complete
    or not) has a positive duration of at most the segment length that does
    not pass the end of the video, and each segment starts where the one
    before it ends. *)
Theorem executed_segments_abut rt h self pre l :
  prepare rt h self = (pre, Next l) ->
  0 < segment_duration self ->
  let segs := executed (run rt h self) in
  (forall i s d, nth_error segs i = Some (s, d) ->
     (0 < value d)%Q /\ (value d <= inject_Z (segment_duration self))%Q /\
     (value s + value d <= total_duration l)%Q) /\
  (forall i s d s' d', nth_error segs i = Some (s, d) ->
     nth_error segs (S i) = Some (s', d') ->
     (value s' == value s + value d)%Q).
Proof.
  intros Hp Hseg segs.
  destruct (run_summary rt h self pre l Hp) as (m & c & Hm & _ & _ & Hex & _).
  fold segs in Hex.
  assert (Hin : forall j, 0 <= j < Z.of_nat m ->
            (inject_Z (j * segment_duration self) < total_duration l)%Q).
  { intros j Hj. apply (plan_in_range _ _ (Z.to_nat (num_segments l)) 0 j Hseg). lia. }
  split.
  - intros i s d H. rewrite Hex in H. apply nth_error_plan_map in H.
    destruct H as (Hi & -> & ->).
    destruct (duration_at_bounds _ _ (Z.of_nat i) Hseg (Hin (Z.of_nat i) ltac:(lia))) as (H1 & H2 & H3).
    change (value (Int (Z.of_nat i * segment_duration self)))
      with (inject_Z (Z.of_nat i * segment_duration self)).
    split; [exact H1|]. split; [exact H2|].
    generalize dependent (value (duration_at (total_duration l) (segment_duration self) (Z.of_nat i))).
    intros v _ _ Hv. lra.
  - intros i s d s' d' H H'. rewrite Hex in H, H'.
    apply nth_error_plan_map in H, H'.
    destruct H as (Hi & -> & ->). destruct H' as (Hi' & -> & _).
    rewrite (duration_at_full _ _ (Z.of_nat i) Hseg).
    + unfold value. replace (Z.of_nat (S i)) with (Z.of_nat i + 1) by lia.
      apply inject_Z_succ_mult.
    + apply Qlt_le_weak. replace (Z.of_nat i + 1) with (Z.of_nat (S i)) by lia. apply Hin. lia.
Qed.

Lemma executed_segments_abut_witness :
  let rt := sample_runtime in
  let h := sample_host "200" "1920x1080" second_failing in
  let self := sample_worker 60 "precise" "original" in
  exists pre l,
    prepare rt h self = (pre, Next l) /\
    0 < segment_duration self /\
    executed (run rt h self) = [(Int 0, Int 60); (Int 60, Int 60)] /\
    (forall i s d s' d', nth_error (executed (run rt h self)) i = Some (s, d) ->
       nth_error (executed (run rt h self)) (S i) = Some (s', d') ->
       (value s' == value s + value d)%Q).
Proof.
  intros rt h self. eexists. eexists.
  split; [lazy; reflexivity|]. split; [reflexivity|].
  split; [vm_compute; reflexivity|].
  eapply executed_segments_abut; [lazy; reflexivity|reflexivity].
Defined.


(** *** Decimal text *)

Lemma string_app_assoc (a b c : string) : ((a ++ b) ++ c = a ++ (b ++ c))%string.
Proof. induction a as [|x a IH]; simpl; [reflexivity|]. rewrite IH. reflexivity. Qed.

Lemma uint_value_acc d : forall acc,
  Zpos (Pos.of_uint_acc d acc) = uint_value (Zpos acc) d.
Proof.
  induction d; intros acc; cbn [Pos.of_uint_acc uint_value]; [reflexivity|..];
    rewrite IHd; f_equal; lia.
Qed.

Lemma uint_value_of_uint d : Z.of_N (Pos.of_uint d) = uint_value 0 d.
Proof.
  induction d; simpl; try reflexivity; try exact IHd; apply uint_value_acc.
Qed.

Lemma digits_uint d : forall acc b,
  b = true \/ d <> Decimal.Nil ->
  digits acc b (NilEmpty.string_of_uint d) = Some (uint_value acc d).
Proof.
  induction d; intros acc b Hb; simpl;
    [destruct Hb as [->|H]; [reflexivity|contradiction]
    |apply IHd; left; reflexivity..].
Qed.

Lemma no_space_app a b : no_space (a ++ b) = (no_space a && no_space b)%bool.
Proof.
  induction a as [|c a IH]; simpl; [reflexivity|]. rewrite IH. apply andb_assoc.
Qed.

Lemma no_space_uint d : no_space (NilEmpty.string_of_uint d) = true.
Proof. induction d; simpl; auto. Qed.

Lemma count_x_uint d : count_char "x" (NilEmpty.string_of_uint d) = O.
Proof. induction d; simpl; auto. Qed.

Lemma str_cases z :
  (z = 0 /\ str z = "0") \/
  (exists d, d <> Decimal.Nil /\ str z = NilEmpty.string_of_uint d /\
             uint_value 0 d = z /\ 0 < z) \/
  (exists d, d <> Decimal.Nil /\ str z = String "-" (NilEmpty.string_of_uint d) /\
             uint_value 0 d = - z /\ z < 0).
Proof.
  destruct z as [|p|p].
  - left. split; reflexivity.
  - right. left. exists (Pos.to_uint p).
    pose proof (DecimalPos.Unsigned.to_uint_nonnil p) as Hnn.
    split; [exact Hnn|]. split.
    + unfold str. simpl. unfold NilZero.string_of_uint.
      destruct (Pos.to_uint p); [contradiction|reflexivity..].
    + rewrite <- uint_value_of_uint, DecimalPos.Unsigned.of_to. split; reflexivity.
  - right. right. exists (Pos.to_uint p).
    pose proof (DecimalPos.Unsigned.to_uint_nonnil p) as Hnn.
    split; [exact Hnn|]. split.
    + unfold str. simpl. unfold NilZero.string_of_uint.
      destruct (Pos.to_uint p); [contradiction|reflexivity..].
    + rewrite <- uint_value_of_uint, DecimalPos.Unsigned.of_to. split; reflexivity.
Qed.

Lemma no_space_str z : no_space (str z) = true.
Proof.
  destruct (str_cases z) as [[_ ->]|[(d & _ & -> & _)|(d & _ & -> & _)]];
    [reflexivity|apply no_space_uint|simpl; apply no_space_uint].
Qed.

Lemma count_x_str z : count_char "x" (str z) = O.
Proof.
  destruct (str_cases z) as [[_ ->]|[(d & _ & -> & _)|(d & _ & -> & _)]];
    [reflexivity|apply count_x_uint|simpl; apply count_x_uint].
Qed.

Lemma rstrip_no_space s : no_space s = true -> rstrip s = s.
Proof.
  induction s as [|c s IH]; simpl; [reflexivity|]. intros H.
  apply andb_prop in H. destruct H as [Hc Hs]. rewrite (IH Hs).
  apply negb_true_iff in Hc. rewrite Hc. destruct s; reflexivity.
Qed.

Lemma strip_no_space s : no_space s = true -> strip s = s.
Proof.
  intros H. unfold strip.
  assert (Hl : lstrip s = s).
  { destruct s as [|c s]; [reflexivity|]. simpl in *.
    apply andb_prop in H. destruct H as [Hc _]. apply negb_true_iff in Hc.
    rewrite Hc. reflexivity. }
  rewrite Hl. apply rstrip_no_space, H.
Qed.

Lemma int_of_str_uint d :
  d <> Decimal.Nil ->
  int_of_str (NilEmpty.string_of_uint d) = Some (uint_value 0 d).
Proof.
  intros Hd. unfold int_of_str. rewrite (strip_no_space _ (no_space_uint d)).
  rewrite <- (digits_uint d 0 false (or_intror Hd)).
  destruct d; [contradiction|reflexivity..].
Qed.

(** [int(str(z))] is [z]. *)
Lemma int_of_str_str z : int_of_str (str z) = Some z.
Proof.
  destruct (str_cases z) as [[-> ->]|[(d & Hd & -> & Hv & _)|(d & Hd & -> & Hv & _)]].
  - reflexivity.
  - rewrite (int_of_str_uint d Hd), Hv. reflexivity.
  - unfold int_of_str. rewrite strip_no_space by (simpl; apply no_space_uint).
    rewrite (digits_uint d 0 false (or_intror Hd)), Hv. simpl. f_equal. lia.
Qed.

(** *** The resolution text *)

Lemma split_on_length sep s :
  List.length (split_on sep s) = S (count_char sep s).
Proof.
  induction s as [|c s IH]; simpl; [reflexivity|].
  destruct (Ascii.eqb c sep); simpl; [rewrite IH; reflexivity|].
  destruct (split_on sep s) as [|p ps]; simpl in *; [discriminate|exact IH].
Qed.

Lemma split_on_whole sep s : count_char sep s = O -> split_on sep s = [s].
Proof.
  induction s as [|c s IH]; simpl; [reflexivity|].
  destruct (Ascii.eqb c sep); [discriminate|]. simpl. intros H. rewrite (IH H). reflexivity.
Qed.

Lemma split_on_first sep a b :
  count_char sep a = O ->
  split_on sep (a ++ String sep b) = a :: split_on sep b.
Proof.
  induction a as [|c a IH]; simpl.
  - rewrite Ascii.eqb_refl. reflexivity.
  - destruct (Ascii.eqb c sep); [discriminate|]. simpl. intros H. rewrite (IH H). reflexivity.
Qed.

Lemma rstrip_line_end s :
  no_space s = true -> rstrip (s ++ String "010" EmptyString) = s.
Proof.
  induction s as [|c s IH]; [reflexivity|]. simpl. intros H.
  apply andb_prop in H. destruct H as [Hc Hs]. rewrite (IH Hs).
  apply negb_true_iff in Hc. rewrite Hc. destruct s; reflexivity.
Qed.

Lemma strip_line_end s :
  no_space s = true -> strip (s ++ String "010" EmptyString) = s.
Proof.
  intros H. unfold strip. destruct s as [|c s]; [reflexivity|].
  assert (Hl : lstrip (String c s ++ String "010" EmptyString)
               = (String c s ++ String "010" EmptyString)%string).
  { simpl in *. apply andb_prop in H. destruct H as [Hc _].
    apply negb_true_iff in Hc. rewrite Hc. reflexivity. }
  rewrite Hl. apply rstrip_line_end, H.
Qed.

(** [WIDTHxHEIGHT] written with [str] parses back. *)
Lemma parse_resolution_str (w h : Z) :
  parse_resolution (str w ++ "x" ++ str h) = Some (w, h).
Proof.
  unfold parse_resolution.
  change (str w ++ "x" ++ str h)%string with (str w ++ String "x" (str h))%string.
  rewrite (split_on_first "x" _ _ (count_x_str w)), (split_on_whole "x" _ (count_x_str h)).
  simpl. rewrite !int_of_str_str. reflexivity.
Qed.

(** X7. The text WIDTHxHEIGHT that ffprobe prints for two integers parses
    back to those integers, also with the line end ffprobe adds once [run]
    has stripped it. *)
Theorem resolution_text_round_trip (w h : Z) :
  parse_resolution (str w ++ "x" ++ str h) = Some (w, h) /\
  parse_resolution (strip (str w ++ "x" ++ str h ++ String "010" EmptyString)) = Some (w, h).
Proof.
  split; [apply parse_resolution_str|].
  replace (str w ++ "x" ++ str h ++ String "010" EmptyString)%string
    with ((str w ++ "x" ++ str h) ++ String "010" EmptyString)%string
    by (rewrite !string_app_assoc; reflexivity).
  rewrite strip_line_end; [apply parse_resolution_str|].
  rewrite !no_space_app, !no_space_str. reflexivity.
Qed.

Lemma percentages_between_0_and_100_witness :
  let run_ := run sample_runtime (sample_host "125" "1920x1080" none_failing)
                  (sample_worker 60 "fast" "original") in
  In 66 (percentages run_) /\ 0 <= 66 <= 100.
Proof.
  intros run_. split; [vm_compute; right; left; reflexivity|].
  apply (percentages_between_0_and_100 sample_runtime
           (sample_host "125" "1920x1080" none_failing) (sample_worker 60 "fast" "original")).
  vm_compute. right. left. reflexivity.
Defined.

(** X8. A resolution text that does not hold exactly one [x] is not parsed:
    the target is the one of the default 1920x1080. *)
Theorem resolution_needs_one_separator res ratio :
  count_char "x" res <> 1%nat ->
  calculate_target_resolution res ratio = calculate_target_resolution "1920x1080" ratio.
Proof.
  intros H. apply unparsable_uses_default. unfold parse_resolution.
  pose proof (split_on_length "x" res) as Hl.
  destruct (split_on "x" res) as [|a [|b [|c r]]]; simpl in *; try reflexivity.
  - destruct (int_of_str a); reflexivity.
  - exfalso. apply H. lia.
  - destruct (int_of_str a); [destruct (int_of_str b)|]; reflexivity.
Qed.

Lemma resolution_needs_one_separator_witness :
  count_char "x" "1280x720x1" <> 1%nat /\
  calculate_target_resolution "1280x720x1" "1:1" = inr (Some (1080, 1080)).
Proof.
  split; [discriminate|].
  rewrite (resolution_needs_one_separator "1280x720x1" "1:1"); [reflexivity|discriminate].
Defined.

(** *** The scale filter *)

Lemma prepare_scale_filter rt h self pre l :
  prepare rt h self = (pre, Next l) ->
  (resolution self = "original" -> scale_filter l = EmptyString) /\
  (resolution self <> "original" ->
   run_mode l <> "fast" /\
   exists res target,
     calculate_target_resolution res (resolution self) = inr target /\
     scale_filter l = (if scale_crop self then crop_filter else pad_filter)
                        (option_map fst target) (option_map snd target)).
Proof.
  unfold prepare, plan_scaling.
  destruct (ffmpeg_path h) as [[|c p]|]; [discriminate| |discriminate].
  destruct (probe_duration h) as [e|rc out err]; [discriminate|].
  simpl. destruct (Z.eqb_spec rc 0) as [->|Hrc]; [|discriminate]. simpl.
  destruct (float_of_str rt (strip out)) as [total|] eqn:Efloat; [|discriminate]. simpl.
  destruct (probe_resolution h) as [e|rrc rout rerr]; [discriminate|]. simpl.
  destruct (calculate_target_resolution _ (resolution self)) as [e|target] eqn:Etarget;
    [discriminate|]. simpl.
  destruct (count_segments total (segment_duration self)) as [e|cnt] eqn:Ecount;
    [destruct target as [[tw th]|];
       [destruct (negb (tw =? 0)%Z && negb (th =? 0)%Z)%bool|]; discriminate|].
  destruct total as [q| |];
    [|destruct target as [[tw th]|];
        [destruct (negb (tw =? 0)%Z && negb (th =? 0)%Z)%bool|]; discriminate ..].
  destruct (String.eqb_spec (resolution self) "original") as [Horig|Hother].
  - destruct target as [[tw th]|];
      [destruct (negb (tw =? 0)%Z && negb (th =? 0)%Z)%bool|];
      simpl; intros H; injection H as _ <-; (split; [reflexivity|contradiction]).
  - destruct (String.eqb_spec (mode self) "fast") as [Hfast|Hslow];
      destruct (scale_crop self);
      (destruct target as [[tw th]|];
         [destruct (negb (tw =? 0)%Z && negb (th =? 0)%Z)%bool|]);
      simpl; intros H; injection H as _ <-;
      (split; [contradiction|intros _; simpl; split;
         [first [discriminate|exact Hslow]
         |eexists; eexists; split; [exact Etarget|reflexivity]]]).
Qed.

Lemma string_app_nil_r (s : string) : (s ++ EmptyString)%string = s.
Proof. induction s as [|c s IH]; simpl; [reflexivity|]. rewrite IH. reflexivity. Qed.

(** [split()] leaves a text without white space in one piece. *)
Lemma split_ws_aux_no_space s : forall cur,
  no_space s = true ->
  split_ws_aux cur s
  = match (cur ++ s)%string with EmptyString => [] | t => [t] end.
Proof.
  induction s as [|c s IH]; intros cur H; simpl.
  - rewrite string_app_nil_r. destruct cur; reflexivity.
  - simpl in H. apply andb_prop in H. destruct H as [Hc Hs].
    apply negb_true_iff in Hc. rewrite Hc, (IH _ Hs), string_app_assoc. reflexivity.
Qed.

Lemma no_space_str_opt x : no_space (str_opt x) = true.
Proof. destruct x as [z|]; [apply no_space_str|reflexivity]. Qed.

Lemma no_space_filter_graph crop w h : no_space (filter_graph crop w h) = true.
Proof.
  unfold filter_graph. destruct crop;
    rewrite !no_space_app, !no_space_str_opt; reflexivity.
Qed.

Lemma filter_args_of_filter (crop : bool) w h :
  filter_args ((if crop then crop_filter else pad_filter) w h)
  = [Lit "-vf"; Lit (filter_graph crop w h)].
Proof.
  assert (H : (if crop then crop_filter else pad_filter) w h
              = String "-" (String "v" (String "f" (String " " (filter_graph crop w h))))).
  { destruct crop; reflexivity. }
  rewrite H. unfold filter_args, split_ws.
  cbn [split_ws_aux is_space nat_of_ascii]. 
  change (split_ws_aux EmptyString
            (String "-" (String "v" (String "f" (String " " (filter_graph crop w h))))))
    with ("-vf"%string :: split_ws_aux EmptyString (filter_graph crop w h)).
  rewrite (split_ws_aux_no_space _ _ (no_space_filter_graph crop w h)).
  destruct crop; reflexivity.
Qed.

(** X9. A run in fast mode has no scale filter: the requested resolution is
    the original one, and each of its segment commands is the stream-copy
    command of 15 arguments, with nothing between [-map 0:a] and the output
    file. *)
Theorem fast_commands_carry_no_filter rt h self pre l :
  prepare rt h self = (pre, Next l) ->
  run_mode l = "fast" ->
  resolution self = "original" /\
  scale_filter l = EmptyString /\
  forall cmd, In cmd (segment_cmds (run rt h self)) ->
    List.length cmd = 15%nat /\
    exists i, 0 <= i /\
      cmd = fast_cmd (ffmpeg l) (input_path self) (i * segment_duration self)
              (duration_at (total_duration l) (segment_duration self) i)
              EmptyString
              (join rt (output_dir self) (segment_name l false i)).
Proof.
  intros Hp Hfast.
  destruct (prepare_scale_filter rt h self pre l Hp) as [Horig Hother].
  destruct (String.eqb_spec (resolution self) "original") as [Hres|Hres];
    [|destruct (Hother Hres) as [Hne _]; contradiction].
  specialize (Horig Hres). split; [exact Hres|]. split; [exact Horig|].
  intros cmd Hin.
  destruct (run_summary rt h self pre l Hp) as (m & c & _ & _ & Hcmds & _).
  rewrite Hcmds, Hfast in Hin. simpl in Hin.
  apply in_map_iff in Hin. destruct Hin as (i & <- & Hi). apply zrange_In in Hi.
  unfold fast_call. rewrite Horig. split; [reflexivity|].
  exists i. split; [lia|reflexivity].
Qed.

Lemma fast_commands_carry_no_filter_witness :
  let rt := sample_runtime in
  let h := sample_host "125" "1920x1080" none_failing in
  let self := sample_worker 60 "fast" "original" in
  exists pre l,
    prepare rt h self = (pre, Next l) /\
    run_mode l = "fast" /\
    List.length (segment_cmds (run rt h self)) = 3%nat /\
    scale_filter l = EmptyString.
Proof.
  intros rt h self. eexists. eexists.
  split; [lazy; reflexivity|]. split; [reflexivity|].
  split; [vm_compute; reflexivity|].
  eassert (Hp : prepare rt h self = (_, Next _)) by (lazy; reflexivity).
  exact (proj1 (proj2 (fast_commands_carry_no_filter rt h self _ _ Hp eq_refl))).
Defined.

(** *** Output file names *)

Lemma string_app_inv_head (a b c : string) : (a ++ b = a ++ c)%string -> b = c.
Proof.
  induction a as [|x a IH]; simpl; intros H; [exact H|].
  injection H as H. exact (IH H).
Qed.

Lemma string_length_app (a b : string) :
  String.length (a ++ b) = (String.length a + String.length b)%nat.
Proof. induction a as [|x a IH]; simpl; [reflexivity|]. rewrite IH. reflexivity. Qed.

Lemma string_app_inv_tail (s : string) : forall a b : string,
  (a ++ s = b ++ s)%string -> a = b.
Proof.
  induction a as [|x a IH]; intros [|y b] H; simpl in H.
  - reflexivity.
  - exfalso. apply (f_equal String.length) in H. simpl in H.
    rewrite string_length_app in H. lia.
  - exfalso. apply (f_equal String.length) in H. simpl in H.
    rewrite string_length_app in H. lia.
  - injection H as -> H. rewrite (IH b H). reflexivity.
Qed.

Lemma digits_zeros k s : digits 0 true (zeros k ++ s) = digits 0 true s.
Proof. induction k as [|k IH]; simpl; [reflexivity|exact IH]. Qed.

Lemma digits_str z : 0 <= z -> digits 0 true (str z) = Some z.
Proof.
  intros Hz.
  destruct (str_cases z) as [[-> ->]|[(d & Hd & -> & Hv & _)|(d & _ & _ & _ & Hneg)]].
  - reflexivity.
  - rewrite (digits_uint d 0 true (or_introl eq_refl)), Hv. reflexivity.
  - lia.
Qed.

(** [int(f"{i:03d}")] is [i] for an index. *)
Lemma int_of_str_fmt_03d i : 0 <= i -> int_of_str (fmt_03d i) = Some i.
Proof.
  intros Hi. unfold fmt_03d.
  assert (Hlt : (i <? 0)%Z = false) by (apply Z.ltb_ge; exact Hi).
  rewrite Hlt, Z.abs_eq by exact Hi.
  set (n := (3 - String.length EmptyString - String.length (str i))%nat). clearbody n.
  change (int_of_str (zeros n ++ str i) = Some i).
  destruct n as [|k].
  - apply int_of_str_str.
  - unfold int_of_str.
    rewrite strip_no_space
      by (rewrite no_space_app, no_space_str, andb_true_r; clear; induction k; simpl; auto).
    cbn [zeros append]. cbn [digits digit_of].
    change (digits 0 true (zeros k ++ str i) = Some i).
    rewrite digits_zeros. apply digits_str, Hi.
Qed.

Lemma fmt_03d_inj i j : 0 <= i -> 0 <= j -> fmt_03d i = fmt_03d j -> i = j.
Proof.
  intros Hi Hj H. apply (f_equal int_of_str) in H.
  rewrite !int_of_str_fmt_03d in H by assumption. injection H as H. exact H.
Qed.

Lemma last_snoc {A} (l : list A) (a d : A) : last (l ++ [a]) d = a.
Proof.
  induction l as [|x l IH]; [reflexivity|].
  simpl. destruct (l ++ [a]) eqn:E; [destruct l; discriminate|exact IH].
Qed.

(** X11. The k-th segment command of a run ends with the output file named
    after the index k, and the names of different indices differ: no two
    segments of a run are written to the same name. *)
Theorem output_names_are_distinct rt h self pre l :
  prepare rt h self = (pre, Next l) ->
  let name := segment_name l (negb (run_mode l =? "fast")%string) in
  (forall k cmd, nth_error (segment_cmds (run rt h self)) k = Some cmd ->
     last cmd (Lit EmptyString) = Lit (join rt (output_dir self) (name (Z.of_nat k)))) /\
  (forall i j, 0 <= i -> 0 <= j -> name i = name j -> i = j).
Proof.
  intros Hp name. split.
  - intros k cmd Hk.
    destruct (run_summary rt h self pre l Hp) as (m & c & _ & _ & Hcmds & _).
    rewrite Hcmds in Hk.
    assert (Hlt : (k < m)%nat).
    { assert (Hs : nth_error (map (if (run_mode l =? "fast")%string
                                   then fast_call rt self l else precise_call rt self l)
                                  (zrange 0 m)) k <> None) by (rewrite Hk; discriminate).
      apply nth_error_Some in Hs. rewrite length_map, zrange_length in Hs. exact Hs. }
    rewrite nth_error_map, (zrange_nth 0 m k Hlt) in Hk. simpl in Hk.
    injection Hk as <-. unfold name.
    destruct (run_mode l =? "fast")%string; cbn [negb].
    + unfold fast_call, fast_cmd. rewrite app_assoc. apply last_snoc.
    + unfold precise_call, precise_cmd. rewrite app_assoc. apply last_snoc.
  - intros i j Hi Hj H. unfold name, segment_name in H.
    apply string_app_inv_head in H.
    change ("_" ++ fmt_03d i ++ (if negb (run_mode l =? "fast") then ".mp4" else ext l))%string
      with (String "_" (fmt_03d i ++ (if negb (run_mode l =? "fast") then ".mp4" else ext l)))%string in H.
    change ("_" ++ fmt_03d j ++ (if negb (run_mode l =? "fast") then ".mp4" else ext l))%string
      with (String "_" (fmt_03d j ++ (if negb (run_mode l =? "fast") then ".mp4" else ext l)))%string in H.
    injection H as H. apply string_app_inv_tail in H.
    apply fmt_03d_inj; assumption.
Qed.

Lemma output_names_are_distinct_witness :
  let rt := sample_runtime in
  let h := sample_host "125" "1920x1080" none_failing in
  let self := sample_worker 60 "fast" "original" in
  exists pre l,
    prepare rt h self = (pre, Next l) /\
    nth_error (map (fun cmd => last cmd (Lit EmptyString)) (segment_cmds (run rt h self))) 1
    = Some (Lit "clip/clip_001.mov") /\
    (forall cmd, nth_error (segment_cmds (run rt h self)) 1 = Some cmd ->
       last cmd (Lit EmptyString) = Lit "clip/clip_001.mov").
Proof.
  intros rt h self. eexists. eexists.
  split; [lazy; reflexivity|]. split; [vm_compute; reflexivity|].
  eassert (Hp : prepare rt h self = (_, Next _)) by (lazy; reflexivity).
  intros cmd H.
  exact (proj1 (output_names_are_distinct rt h self _ _ Hp) 1%nat cmd H).
Defined.

(** *** The window *)

Lemma known_ratio_has_target ratio res :
  In ratio known_ratios -> calculate_target_resolution res ratio <> inr None.
Proof.
  intros Hin. unfold calculate_target_resolution.
  destruct (match parse_resolution res with Some p => p | None => (1920, 1080) end) as [w hgt].
  simpl in Hin. destruct Hin as [<-|[<-|[<-|[<-|[]]]]]; cbn [String.eqb Ascii.eqb Bool.eqb];
    try discriminate.
  - destruct (int_ratio (Z.min hgt 1920) 9 16); discriminate.
  - destruct (int_ratio (Z.min hgt 1350) 4 5); discriminate.
  - destruct (int_ratio (Z.min w 1920) 9 16); discriminate.
Qed.

(** X12. Every entry of the resolution box has a key in [resolution_map]:
    with a file selected and the output directory created, [start_splitting]
    starts a worker for any of them, on the file's own folder and stem, and
    the ratio it hands over is [original] or one for which
    [calculate_target_resolution] has a branch, never one that yields
    [(None, None)]. *)
Theorem combo_labels_are_understood rt os ui c p :
  selected_path ui = Some (String c p) ->
  In (resolution_combo ui) resolution_items ->
  let path := String c p in
  let dir := join rt (dirname os path) (fst (splitext rt (basename rt path))) in
  makedirs os dir = None ->
  exists w,
    start_splitting rt os ui = Started w /\
    input_path w = path /\ output_dir w = dir /\
    segment_duration w = duration_spin ui /\
    mode w = (if fast_radio ui then "fast" else "precise") /\
    scale_crop w = scale_checkbox ui /\
    (resolution w = "original" \/
     In (resolution w) known_ratios /\
     forall res, calculate_target_resolution res (resolution w) <> inr None).
Proof.
  intros Hsel Hin path dir Hmk. unfold start_splitting. rewrite Hsel.
  fold path. fold dir. rewrite Hmk.
  assert (Hget : exists r, dict_get resolution_map (resolution_combo ui) = Some r /\
                           (r = "original" \/ In r known_ratios)).
  { simpl in Hin. destruct Hin as [<-|[<-|[<-|[<-|[<-|[]]]]]];
      eexists; (split; [reflexivity|]); simpl; tauto. }
  destruct Hget as (r & -> & Hr).
  eexists. split; [reflexivity|]. simpl.
  repeat (split; [reflexivity|]).
  destruct Hr as [Hr|Hr]; [left; exact Hr|right].
  split; [exact Hr|]. intros res. apply known_ratio_has_target, Hr.
Qed.

Lemma combo_labels_are_understood_witness :
  let rt := sample_runtime in
  let os := sample_installation in
  let ui := sample_window "9:16 (Вертикальна)" in
  selected_path ui = Some "C:/videos/clip.mov" /\
  In (resolution_combo ui) resolution_items /\
  makedirs os (join rt (dirname os "C:/videos/clip.mov")
                 (fst (splitext rt (basename rt "C:/videos/clip.mov")))) = None /\
  exists w, start_splitting rt os ui = Started w /\ resolution w = "9:16".
Proof.
  intros rt os ui. split; [reflexivity|].
  assert (Hin : In (resolution_combo ui) resolution_items)
    by (simpl; right; right; left; reflexivity).
  split; [exact Hin|]. split; [reflexivity|].
  destruct (combo_labels_are_understood rt os ui "C"%char ":/videos/clip.mov" eq_refl Hin eq_refl)
    as (w & Hw & _).
  exists w. split; [exact Hw|].
  vm_compute in Hw. injection Hw as <-. reflexivity.
Defined.

(** *** When segments are produced *)

Lemma plan_empty total seg :
  seg <> 0 -> (total <= 0)%Q \/ seg < 0 ->
  plan total seg (Z.to_nat (Qfloor (total / inject_Z seg) + 1)) 0 = [].
Proof.
  intros Hne H.
  destruct (Qlt_le_dec 0 total) as [Hpos|Hle].
  - destruct H as [H|Hseg]; [exfalso; lra|].
    assert (Hx : (total / inject_Z seg < 0)%Q).
    { assert (Hs : (0 < inject_Z (- seg))%Q) by (rewrite <- (Zlt_Qlt 0); lia).
      assert (E : (total / inject_Z seg == (- total) / inject_Z (- seg))%Q).
      { rewrite inject_Z_opp. field. intros E0.
        rewrite inject_Z_opp in Hs. rewrite E0 in Hs. discriminate. }
      rewrite E. apply Qlt_shift_div_r; [exact Hs|]. lra. }
    pose proof (Qfloor_le (total / inject_Z seg)) as Hf.
    assert (Hn : Qfloor (total / inject_Z seg) < 0).
    { rewrite Zlt_Qlt. eapply Qle_lt_trans; [exact Hf|exact Hx]. }
    replace (Z.to_nat (Qfloor (total / inject_Z seg) + 1)) with O by lia. reflexivity.
  - destruct (Z.to_nat (Qfloor (total / inject_Z seg) + 1)) as [|f]; [reflexivity|].
    simpl. replace (segment_length total seg 0) with (@None number); [reflexivity|].
    symmetry. apply segment_length_none. exact Hle.
Qed.

(** X13. A run spawns a segment command only when the tool was found beside
    the executable, the duration probe exited with 0 and printed a number,
    that number is positive and so is the segment length.  In particular a
    zero or negative segment length, or an empty video, produces no file. *)
Theorem segments_need_positive_duration_and_length rt h self :
  segment_cmds (run rt h self) <> [] ->
  exists tool out err total,
    ffmpeg_path h = Some tool /\ tool <> EmptyString /\
    probe_duration h = Exited 0 out err /\
    float_of_str rt (strip out) = Some (Finite total) /\
    (0 < total)%Q /\ 0 < segment_duration self.
Proof.
  intros Hcmds.
  destruct (prepare rt h self) as [pre fl] eqn:Hp.
  destruct fl as [l| |e];
    [|exfalso; apply Hcmds;
      apply (run_stops_in_preparation rt h self); rewrite Hp; discriminate ..].
  destruct (prepare_inv rt h self pre l Hp)
    as ((tool & Htool & Hne & _) & _ & _ & (out & err & Hprobe & Hfloat) & _).
  destruct (prepared_count rt h self pre l Hp) as [Hseg Hn].
  exists tool, out, err, (total_duration l).
  repeat (split; [assumption|]).
  destruct (run_summary rt h self pre l Hp) as (m & c & Hm & _ & Hrun & _).
  assert (Hplan : plan (total_duration l) (segment_duration self)
                    (Z.to_nat (num_segments l)) 0 <> []).
  { intros E. rewrite E in Hm. simpl in Hm.
    assert (m = O) by lia. subst m. apply Hcmds. rewrite Hrun. reflexivity. }
  rewrite Hn in Hplan.
  destruct (Qlt_le_dec 0 (total_duration l)) as [Hpos|Hle];
    [|exfalso; apply Hplan, plan_empty; [exact Hseg|left; exact Hle]].
  split; [exact Hpos|].
  destruct (Z_lt_le_dec 0 (segment_duration self)) as [Hs|Hs]; [exact Hs|].
  exfalso. apply Hplan, plan_empty; [exact Hseg|right; lia].
Qed.

Lemma segments_need_positive_duration_and_length_witness :
  let rt := sample_runtime in
  let h := sample_host "125" "1920x1080" none_failing in
  let self := sample_worker 60 "fast" "original" in
  segment_cmds (run rt h self) <> [] /\
  exists tool out err total,
    ffmpeg_path h = Some tool /\ tool <> EmptyString /\
    probe_duration h = Exited 0 out err /\
    float_of_str rt (strip out) = Some (Finite total) /\
    (0 < total)%Q /\ 0 < segment_duration self.
Proof.
  intros rt h self.
  assert (H : segment_cmds (run rt h self) <> []) by (vm_compute; discriminate).
  split; [exact H|].
  exact (segments_need_positive_duration_and_length rt h self H).
Defined.

(** X14. The target resolution is a fixed point: giving the computed target
    back as the source resolution, with the same ratio, computes the same
    target again. *)
Theorem target_resolution_is_a_fixed_point res ratio tw th :
  calculate_target_resolution res ratio = inr (Some (tw, th)) ->
  calculate_target_resolution (str tw ++ "x" ++ str th) ratio = inr (Some (tw, th)).
Proof.
  unfold calculate_target_resolution. rewrite parse_resolution_str.
  destruct (match parse_resolution res with Some p => p | None => (1920, 1080) end) as [w hgt].
  destruct (ratio =? "original")%string; [discriminate|].
  destruct (ratio =? "9:16")%string.
  { destruct (int_ratio (Z.min hgt 1920) 9 16) as [e|x] eqn:E; [discriminate|].
    intros H. injection H as <- <-.
    replace (Z.min (Z.min hgt 1920) 1920) with (Z.min hgt 1920) by lia.
    rewrite E. reflexivity. }
  destruct (ratio =? "4:5")%string.
  { destruct (int_ratio (Z.min hgt 1350) 4 5) as [e|x] eqn:E; [discriminate|].
    intros H. injection H as <- <-.
    replace (Z.min (Z.min hgt 1350) 1350) with (Z.min hgt 1350) by lia.
    rewrite E. reflexivity. }
  destruct (ratio =? "1:1")%string.
  { intros H. injection H as <- <-. f_equal. f_equal. f_equal; lia. }
  destruct (ratio =? "16:9")%string; [|discriminate].
  destruct (int_ratio (Z.min w 1920) 9 16) as [e|x] eqn:E; [discriminate|].
  intros H. injection H as <- <-.
  replace (Z.min (Z.min w 1920) 1920) with (Z.min w 1920) by lia.
  rewrite E. reflexivity.
Qed.

Lemma target_resolution_is_a_fixed_point_witness :
  calculate_target_resolution "3840x2160" "9:16" = inr (Some (1080, 1920)) /\
  calculate_target_resolution "1080x1920" "9:16" = inr (Some (1080, 1920)).
Proof.
  assert (H : calculate_target_resolution "3840x2160" "9:16" = inr (Some (1080, 1920)))
    by (vm_compute; reflexivity).
  split; [exact H|].
  exact (target_resolution_is_a_fixed_point "3840x2160" "9:16" 1080 1920 H).
Defined.

(** *** A process that cannot be started *)

(** X15. When [subprocess.run] raises for segment [k], every earlier process
    having exited (with 0, in precise mode), the run ends in either mode
    with the error signal that carries the exception: the commands of the
    indices 0..k were spawned, and one percentage was emitted for each
    segment before [k]. *)
Theorem start_failure_aborts rt h self pre l k e :
  prepare rt h self = (pre, Next l) ->
  0 < segment_duration self ->
  0 <= k ->
  (inject_Z (k * segment_duration self) < total_duration l)%Q ->
  (forall j, 0 <= j < k ->
     exits (encode h j) /\ (run_mode l <> "fast" -> exits_zero (encode h j))) ->
  encode h k = Raised e ->
  terminal_of (run rt h self) = Some (Aborted (exception_text e)) /\
  List.length (segment_cmds (run rt h self)) = S (Z.to_nat k) /\
  percentages (run rt h self) = map (fun j => pct j (num_segments l)) (zrange 0 (Z.to_nat k)).
Proof.
  intros Hp Hseg Hk Hlt Hok Hfail.
  destruct (prepared_count rt h self pre l Hp) as [_ Hn].
  destruct (prepare_inv rt h self pre l Hp)
    as (_ & _ & _ & _ & _ & _ & _ & Hcmds & Hpct & _).
  pose proof (index_within_count _ _ k Hseg Hlt) as Hkn. rewrite <- Hn in Hkn.
  assert (Hreach : k < 0 + Z.of_nat (List.length
            (plan (total_duration l) (segment_duration self) (Z.to_nat (num_segments l)) 0))).
  { apply plan_reaches; [exact Hseg|lia|exact Hlt]. }
  rewrite (run_after_prepare rt h self pre l Hp).
  destruct (String.eqb_spec (run_mode l) "fast") as [Hfast|Hprec].
  - rewrite (split_fast rt h self l Hfast). cbn [fst snd].
    destruct (fast_loop_trace rt h self l (Z.to_nat (num_segments l)) 0 ltac:(lia) ltac:(lia))
      as (m & c & Hm & Hcm & Hc & Hpc & _ & _ & Hex & Hfl).
    assert (Hnotin : ~ In k (zrange 0 c)).
    { intros Hin. destruct (Hex k Hin) as (rc & o & er & He). congruence. }
    rewrite zrange_In in Hnotin.
    set (tr := fst (fast_loop rt h self l (Z.to_nat (num_segments l)) 0)) in *.
    destruct (snd (fast_loop rt h self l (Z.to_nat (num_segments l)) 0)) as [[]| |e'].
    + exfalso. destruct Hfl as [-> ->]. lia.
    + contradiction.
    + destruct Hfl as [-> Hr].
      assert (Hck : 0 + Z.of_nat c = k).
      { destruct (Z.lt_trichotomy (0 + Z.of_nat c) k) as [Hl|[He'|Hg]]; [|exact He'|lia].
        exfalso. destruct (Hok (0 + Z.of_nat c) ltac:(lia)) as [(rc & o & er & He'') _].
        congruence. }
      rewrite Hck, Hfail in Hr. injection Hr as <-.
      assert (Hc' : c = Z.to_nat k) by lia. subst c.
      simpl run_tail.
      split; [rewrite app_assoc, terminal_of_snoc; reflexivity|].
      rewrite !segment_cmds_app, !percentages_app, Hcmds, Hpct. simpl.
      rewrite !app_nil_r, Hc, Hpc, length_map, zrange_length. split; reflexivity.
  - rewrite (split_precise rt h self l Hprec). cbn [fst snd].
    destruct (precise_loop_trace rt h self l (Z.to_nat (num_segments l)) 0 ltac:(lia) ltac:(lia))
      as (m & c & Hm & Hcm & Hc & Hpc & _ & _ & Hzero & Hfl).
    assert (Hnotin : ~ In k (zrange 0 c)).
    { intros Hin. destruct (Hzero k Hin) as (o & er & He). congruence. }
    rewrite zrange_In in Hnotin.
    set (tr := fst (precise_loop rt h self l (Z.to_nat (num_segments l)) 0)) in *.
    destruct (snd (precise_loop rt h self l (Z.to_nat (num_segments l)) 0)) as [[]| |e'].
    + exfalso. destruct Hfl as [-> ->]. lia.
    + exfalso. destruct Hfl as (-> & rc' & out' & err' & tr0 & He & Hne & _).
      destruct (Z.lt_trichotomy (0 + Z.of_nat c) k) as [Hl|[He'|Hg]]; [| |lia].
      * destruct (Hok (0 + Z.of_nat c) ltac:(lia)) as [_ Hz].
        destruct (Hz Hprec) as (o & er & He''). congruence.
      * rewrite He' in He. congruence.
    + destruct Hfl as [-> Hr].
      assert (Hck : 0 + Z.of_nat c = k).
      { destruct (Z.lt_trichotomy (0 + Z.of_nat c) k) as [Hl|[He'|Hg]]; [|exact He'|lia].
        exfalso. destruct (Hok (0 + Z.of_nat c) ltac:(lia)) as [(rc & o & er & He'') _].
        congruence. }
      rewrite Hck, Hfail in Hr. injection Hr as <-.
      assert (Hc' : c = Z.to_nat k) by lia. subst c.
      simpl run_tail.
      split; [rewrite app_assoc, terminal_of_snoc; reflexivity|].
      rewrite !segment_cmds_app, !percentages_app, Hcmds, Hpct. simpl.
      rewrite !app_nil_r, Hc, Hpc, length_map, zrange_length. split; reflexivity.
Qed.

Lemma start_failure_aborts_witness :
  let rt := sample_runtime in
  let h := {| ffmpeg_path := Some "C:/tools/";
              probe_duration := Exited 0 "200" EmptyString;
              probe_resolution := Exited 0 "1920x1080" EmptyString;
              encode := fun i => if (i =? 1)%Z then Raised (OSError "no shell")
                                 else Exited 0 EmptyString EmptyString |} in
  let self := sample_worker 60 "fast" "original" in
  exists pre l,
    prepare rt h self = (pre, Next l) /\
    0 < segment_duration self /\
    0 <= 1 /\
    (inject_Z (1 * segment_duration self) < total_duration l)%Q /\
    (forall j, 0 <= j < 1 ->
       exits (encode h j) /\ (run_mode l <> "fast" -> exits_zero (encode h j))) /\
    encode h 1 = Raised (OSError "no shell") /\
    terminal_of (run rt h self) = Some (Aborted (exception_text (OSError "no shell"))) /\
    List.length (segment_cmds (run rt h self)) = 2%nat.
Proof.
  intros rt h self.
  eassert (Hp : prepare rt h self = (_, Next _)) by (lazy; reflexivity).
  assert (Hbefore : forall j, 0 <= j < 1 ->
            exits (encode h j) /\ (mode self <> "fast" -> exits_zero (encode h j))).
  { intros j Hj. replace j with 0 by lia.
    split; [do 3 eexists; reflexivity|intros _; do 2 eexists; reflexivity]. }
  eexists. eexists.
  split; [exact Hp|]. split; [reflexivity|]. split; [discriminate|].
  split; [reflexivity|]. split; [exact Hbefore|]. split; [reflexivity|].
  destruct (start_failure_aborts rt h self _ _ 1 (OSError "no shell") Hp
              ltac:(reflexivity) ltac:(discriminate) ltac:(reflexivity) Hbefore eq_refl)
    as (Ht & Hl & _).
  split; [exact Ht|exact Hl].
Defined.

(** *** Every command a run spawns *)

Lemma spawned_app a b : spawned (a ++ b) = spawned a ++ spawned b.
Proof. unfold spawned. apply flat_map_app. Qed.

(** A run that reaches the loops has spawned the two probes, in this order,
    and nothing else before them. *)
Lemma prepare_spawned rt h self pre l :
  prepare rt h self = (pre, Next l) ->
  spawned pre = [duration_cmd self (ffmpeg l); resolution_cmd self (ffmpeg l)].
Proof.
  unfold prepare, plan_scaling.
  destruct (ffmpeg_path h) as [[|c p]|]; [discriminate| |discriminate].
  destruct (probe_duration h) as [e|rc out err]; [discriminate|].
  simpl. destruct (Z.eqb_spec rc 0) as [->|Hrc]; [|discriminate]. simpl.
  destruct (float_of_str rt (strip out)) as [total|] eqn:Efloat; [|discriminate]. simpl.
  destruct (probe_resolution h) as [e|rrc rout rerr]; [discriminate|]. simpl.
  destruct (calculate_target_resolution _ (resolution self)) as [e|target]; [discriminate|]. simpl.
  destruct (count_segments total (segment_duration self)) as [e|cnt] eqn:Ecount;
    [destruct target as [[tw th]|];
       [destruct (negb (tw =? 0)%Z && negb (th =? 0)%Z)%bool|]; discriminate|].
  destruct total as [q| |];
    [|destruct target as [[tw th]|];
        [destruct (negb (tw =? 0)%Z && negb (th =? 0)%Z)%bool|]; discriminate ..].
  destruct target as [[tw th]|];
    [destruct (negb (tw =? 0)%Z && negb (th =? 0)%Z)%bool|];
    destruct (resolution self =? "original")%string;
    destruct (scale_crop self);
    destruct (mode self =? "fast")%string;
    simpl; intros H; injection H as <- <-; reflexivity.
Qed.

Section LoopSpawns.

Variable rt : runtime.
Variable h : host.
Variable self : WorkerThread.
Variable l : locals.

(** Each loop spawns segment commands only: the reader [segment_cmds] drops
    none of its commands. *)
Lemma fast_loop_spawned fuel : forall i,
  0 <= i -> Z.of_nat fuel <= Z.max 0 (num_segments l - i) ->
  spawned (fst (fast_loop rt h self l fuel i))
  = segment_cmds (fst (fast_loop rt h self l fuel i)).
Proof.
  induction fuel as [|fuel IH]; intros i Hi Hn; [reflexivity|].
  destruct (segment_length (total_duration l) (segment_duration self)
              (i * segment_duration self)) as [d|] eqn:E.
  - rewrite (fast_loop_step rt h self l fuel i d E Hi ltac:(lia)).
    destruct (encode h i) as [e|rc out err]; [reflexivity|].
    specialize (IH (i + 1) ltac:(lia) ltac:(lia)).
    destruct (fast_loop rt h self l fuel (i + 1)) as [tr fl]. cbn [fst] in *.
    rewrite spawned_app, segment_cmds_app, IH. reflexivity.
  - rewrite (fast_loop_stop rt h self l (S fuel) i E). reflexivity.
Qed.

Lemma precise_loop_spawned fuel : forall i,
  0 <= i -> Z.of_nat fuel <= Z.max 0 (num_segments l - i) ->
  spawned (fst (precise_loop rt h self l fuel i))
  = segment_cmds (fst (precise_loop rt h self l fuel i)).
Proof.
  induction fuel as [|fuel IH]; intros i Hi Hn; [reflexivity|].
  destruct (segment_length (total_duration l) (segment_duration self)
              (i * segment_duration self)) as [d|] eqn:E.
  - rewrite (precise_loop_step rt h self l fuel i d E Hi ltac:(lia)).
    destruct (encode h i) as [e|rc out err]; [reflexivity|].
    destruct (negb (rc =? 0)%Z); [reflexivity|].
    specialize (IH (i + 1) ltac:(lia) ltac:(lia)).
    destruct (precise_loop rt h self l fuel (i + 1)) as [tr fl]. cbn [fst] in *.
    rewrite spawned_app, segment_cmds_app, IH. reflexivity.
  - rewrite (precise_loop_stop rt h self l (S fuel) i E). reflexivity.
Qed.

End LoopSpawns.

Lemma run_tail_spawns_nothing self fl :
  spawned (run_tail self fl) = [] /\ segment_cmds (run_tail self fl) = [].
Proof. destruct fl; split; reflexivity. Qed.

(** The commands of a whole run: the two probes, then the segment
    commands; [segment_cmds] leaves out the probes and nothing else. *)
Lemma run_spawned rt h self pre l :
  prepare rt h self = (pre, Next l) ->
  spawned (run rt h self)
  = duration_cmd self (ffmpeg l) :: resolution_cmd self (ffmpeg l)
      :: segment_cmds (run rt h self).
Proof.
  intros Hp.
  destruct (prepare_inv rt h self pre l Hp)
    as (_ & _ & _ & _ & _ & _ & _ & Hcmds & _).
  rewrite (run_after_prepare rt h self pre l Hp).
  destruct (run_tail_spawns_nothing self (snd (split rt h self l))) as [Ht1 Ht2].
  rewrite !spawned_app, !segment_cmds_app, (prepare_spawned rt h self pre l Hp),
    Hcmds, Ht1, Ht2, !app_nil_r.
  cbn [app]. do 2 f_equal.
  destruct (String.eqb_spec (run_mode l) "fast") as [Hfast|Hprec].
  - rewrite (split_fast rt h self l Hfast). cbn [fst].
    change (spawned (Emit (progress fast_mode_banner) :: ?t)) with (spawned t).
    apply (fast_loop_spawned rt h self l); lia.
  - rewrite (split_precise rt h self l Hprec). cbn [fst].
    apply (precise_loop_spawned rt h self l); lia.
Qed.

Lemma exits_zero_exits c : exits_zero c -> exits c.
Proof. intros (out & err & ->). exists 0, out, err. reflexivity. Qed.

Lemma nth_error_calls (call : Z -> list arg) m k :
  0 <= k < Z.of_nat m ->
  nth_error (map call (zrange 0 m)) (Z.to_nat k) = Some (call k).
Proof.
  intros Hk. rewrite nth_error_map, (zrange_nth 0 m (Z.to_nat k)) by lia.
  simpl. rewrite Z2Nat.id by lia. reflexivity.
Qed.

(** The command of segment [k] is spawned as soon as the segment starts
    before the end of the video and no earlier process stopped the run. *)
Lemma segment_reached rt h self pre l k :
  prepare rt h self = (pre, Next l) ->
  0 < segment_duration self ->
  0 <= k ->
  (inject_Z (k * segment_duration self) < total_duration l)%Q ->
  (forall j, 0 <= j < k ->
     exits (encode h j) /\ (run_mode l <> "fast" -> exits_zero (encode h j))) ->
  nth_error (segment_cmds (run rt h self)) (Z.to_nat k)
  = Some ((if (run_mode l =? "fast")%string
           then fast_call rt self l else precise_call rt self l) k).
Proof.
  intros Hp Hseg Hk Hlt Hok.
  destruct (prepared_count rt h self pre l Hp) as [_ Hn].
  destruct (prepare_inv rt h self pre l Hp)
    as (_ & _ & _ & _ & _ & _ & _ & Hcmds & _).
  pose proof (index_within_count _ _ k Hseg Hlt) as Hkn. rewrite <- Hn in Hkn.
  assert (Hreach : k < 0 + Z.of_nat (List.length
            (plan (total_duration l) (segment_duration self) (Z.to_nat (num_segments l)) 0))).
  { apply plan_reaches; [exact Hseg|lia|exact Hlt]. }
  rewrite (run_after_prepare rt h self pre l Hp).
  destruct (run_tail_spawns_nothing self (snd (split rt h self l))) as [_ Ht].
  rewrite !segment_cmds_app, Hcmds, Ht, app_nil_r. cbn [app].
  destruct (String.eqb_spec (run_mode l) "fast") as [Hfast|Hprec].
  - rewrite (split_fast rt h self l Hfast). cbn [fst].
    change (segment_cmds (Emit (progress fast_mode_banner) :: ?t)) with (segment_cmds t).
    destruct (fast_loop_trace rt h self l (Z.to_nat (num_segments l)) 0 ltac:(lia) ltac:(lia))
      as (m & c & Hm & Hcm & Hc & _ & _ & _ & Hex & Hfl).
    rewrite Hc. apply nth_error_calls. split; [exact Hk|].
    destruct (snd (fast_loop rt h self l (Z.to_nat (num_segments l)) 0)) as [[]| |e'].
    + destruct Hfl as [-> ->]. lia.
    + contradiction.
    + destruct Hfl as [-> Hr].
      destruct (Z_lt_le_dec (Z.of_nat c) k) as [Hl|Hg]; [|lia].
      exfalso. destruct (Hok (0 + Z.of_nat c) ltac:(lia)) as [(rc & o & er & He) _].
      congruence.
  - rewrite (split_precise rt h self l Hprec). cbn [fst].
    change (segment_cmds (Emit (progress precise_mode_banner) :: ?t)) with (segment_cmds t).
    destruct (precise_loop_trace rt h self l (Z.to_nat (num_segments l)) 0 ltac:(lia) ltac:(lia))
      as (m & c & Hm & Hcm & Hc & _ & _ & _ & Hzero & Hfl).
    rewrite Hc. apply nth_error_calls. split; [exact Hk|].
    destruct (snd (precise_loop rt h self l (Z.to_nat (num_segments l)) 0)) as [[]| |e'].
    + destruct Hfl as [-> ->]. lia.
    + destruct Hfl as (-> & rc' & out' & err' & tr0 & He & Hne & _).
      destruct (Z_lt_le_dec (Z.of_nat c) k) as [Hl|Hg]; [|lia].
      exfalso. destruct (Hok (0 + Z.of_nat c) ltac:(lia)) as [_ Hz].
      destruct (Hz Hprec) as (o & er & He'). congruence.
    + destruct Hfl as [-> Hr].
      destruct (Z_lt_le_dec (Z.of_nat c) k) as [Hl|Hg]; [|lia].
      exfalso. destruct (Hok (0 + Z.of_nat c) ltac:(lia)) as [(rc & o & er & He) _].
      congruence.
Qed.

(** *** Reading the options of a segment command *)




(** *** The segment commands *)



(** *** The scale filter in the commands *)

(** X10. When a resolution other than the original is requested, the scale
    filter reaches ffmpeg as exactly two arguments, [-vf] and the filter
    graph in one piece.  Every command the run spawns after the two probes
    has 27 arguments and ends with [-vf], that graph and the output file of
    its index; and the command of segment [k] is spawned whenever the
    segment starts before the end of the video and the earlier processes
    exited with 0. *)
Theorem scale_filter_is_two_arguments rt h self pre l :
  prepare rt h self = (pre, Next l) ->
  resolution self <> "original" ->
  exists res target,
    calculate_target_resolution res (resolution self) = inr target /\
    let graph := filter_graph (scale_crop self)
                   (option_map fst target) (option_map snd target) in
    let ending := fun k =>
      [ Lit "-vf"; Lit graph;
        Lit (join rt (output_dir self) (segment_name l true k)) ] in
    filter_args (scale_filter l) = [Lit "-vf"; Lit graph] /\
    (forall i cmd, nth_error (spawned (run rt h self)) (2 + i) = Some cmd ->
       exists front,
         List.length front = 24%nat /\ cmd = front ++ ending (Z.of_nat i)) /\
    (forall k,
       0 < segment_duration self -> 0 <= k ->
       (inject_Z (k * segment_duration self) < total_duration l)%Q ->
       (forall j, 0 <= j < k -> exits_zero (encode h j)) ->
       exists front,
         List.length front = 24%nat /\
         nth_error (spawned (run rt h self)) (2 + Z.to_nat k) = Some (front ++ ending k)).
Proof.
  intros Hp Hres.
  destruct (prepare_scale_filter rt h self pre l Hp) as [_ Hother].
  destruct (Hother Hres) as (Hmode & res & target & Htarget & Hfilter).
  exists res, target. split; [exact Htarget|]. intros graph ending.
  assert (Hargs : filter_args (scale_filter l) = [Lit "-vf"; Lit graph]).
  { rewrite Hfilter. apply filter_args_of_filter. }
  assert (Hshape : forall k, exists front,
            List.length front = 24%nat /\ precise_call rt self l k = front ++ ending k).
  { intros k. unfold precise_call, precise_cmd. rewrite Hargs.
    eexists. split; [|reflexivity]. reflexivity. }
  pose proof Hmode as Hneq. apply String.eqb_neq in Hneq.
  split; [exact Hargs|]. split.
  - intros i cmd Hnth.
    rewrite (run_spawned rt h self pre l Hp) in Hnth. cbn [Nat.add nth_error] in Hnth.
    destruct (run_summary rt h self pre l Hp) as (m & c & _ & _ & Hcmds & _).
    rewrite Hcmds, Hneq in Hnth.
    assert (Hi : (i < m)%nat).
    { assert (Hs : nth_error (map (precise_call rt self l) (zrange 0 m)) i <> None)
        by (rewrite Hnth; discriminate).
      apply nth_error_Some in Hs. rewrite length_map, zrange_length in Hs. exact Hs. }
    rewrite nth_error_map, (zrange_nth 0 m i Hi) in Hnth. simpl in Hnth.
    injection Hnth as <-. apply Hshape.
  - intros k Hseg Hk Hlt Hok.
    destruct (Hshape k) as (front & Hlen & Hcall). exists front. split; [exact Hlen|].
    rewrite (run_spawned rt h self pre l Hp). cbn [Nat.add nth_error].
    rewrite <- Hcall.
    rewrite (segment_reached rt h self pre l k Hp Hseg Hk Hlt), Hneq; [reflexivity|].
    intros j Hj. split; [apply exits_zero_exits|intros _]; apply Hok, Hj.
Qed.

Lemma second_literal (a b c : string) : [Lit a; Lit b] = [Lit a; Lit c] -> b = c.
Proof. intros H. injection H as H. exact H. Qed.

Lemma scale_filter_is_two_arguments_witness :
  let rt := sample_runtime in
  let h := sample_host "125" "1920x1080" none_failing in
  let self := sample_worker 60 "fast" "1:1" in
  exists pre l,
    prepare rt h self = (pre, Next l) /\
    resolution self <> "original" /\
    0 < segment_duration self /\ 0 <= 1 /\
    (inject_Z (1 * segment_duration self) < total_duration l)%Q /\
    (forall j, 0 <= j < 1 -> exits_zero (encode h j)) /\
    filter_args (scale_filter l)
    = [Lit "-vf";
       Lit "scale=1080x1080:force_original_aspect_ratio=increase,crop=1080:1080"] /\
    exists front,
      List.length front = 24%nat /\
      nth_error (spawned (run rt h self)) 3
      = Some (front ++
              [Lit "-vf";
               Lit "scale=1080x1080:force_original_aspect_ratio=increase,crop=1080:1080";
               Lit "clip/clip_001.mp4"]).
Proof.
  intros rt h self.
  eassert (Hp : prepare rt h self = (_, Next _)) by (lazy; reflexivity).
  assert (Hbefore : forall j, 0 <= j < 1 -> exits_zero (encode h j)).
  { intros j _. do 2 eexists. reflexivity. }
  eexists. eexists. split; [exact Hp|]. split; [discriminate|].
  split; [reflexivity|]. split; [discriminate|]. split; [reflexivity|].
  split; [exact Hbefore|].
  destruct (scale_filter_is_two_arguments rt h self _ _ Hp ltac:(discriminate))
    as (res & target & _ & Hargs & _ & Hex).
  destruct (Hex 1 eq_refl ltac:(discriminate) eq_refl Hbefore) as (front & Hlen & Hnth).
  assert (Hgraph : filter_graph (scale_crop self) (option_map fst target) (option_map snd target)
                   = "scale=1080x1080:force_original_aspect_ratio=increase,crop=1080:1080").
  { match type of Hargs with
    | ?lhs = _ =>
        assert (Hc : lhs = [Lit "-vf";
                  Lit "scale=1080x1080:force_original_aspect_ratio=increase,crop=1080:1080"])
          by (vm_compute; reflexivity)
    end.
    rewrite Hc in Hargs. symmetry. exact (second_literal _ _ _ Hargs). }
  rewrite Hgraph in Hargs, Hnth.
  split; [exact Hargs|]. exists front. split; [exact Hlen|exact Hnth].
Defined.
